(** * Chess blocker: command parsing and remote execution pipeline

    A shallow embedding of the command pipeline of the repository:
    - [lib/ssh.js]       shell command builders          (module [Ssh]),
    - [lib/commands.js]  intent parser                   (module [Commands]),
    - [suspend-chess.js] the SSH orchestrator            (module [SuspendChess]),
    - [ntfy/ntfy-listener.js] the webhook front-end      (module [NtfyListener]).

    JavaScript strings are sequences of UTF-16 code units.  They are
    modelled by [string], every [ascii] standing for one code unit in
    the range 0..255; the fixed texts of the program that use other
    glyphs (the emoji table) are kept symbolic. *)

From Stdlib Require Import String Ascii List Bool Arith ZArith Lia.
From Stdlib Require Import DecimalString DecimalPos.
Import ListNotations.
Open Scope string_scope.

(** ** JavaScript string and array primitives used by the program *)

Module Js.

(** The empty string literal of the source. *)
Definition empty : string := EmptyString.

Definition quote : ascii := "'"%char.
Definition backslash : ascii := "\"%char.

(** [str.replace(/c/g, by)] for a one-character pattern [c] and a
    replacement text without [$] patterns: every occurrence of [c],
    left to right, is replaced by [by]. *)
Fixpoint replaceAllChar (c : ascii) (by_ : string) (str : string) : string :=
  match str with
  | EmptyString => EmptyString
  | String a rest =>
      if Ascii.eqb a c
      then by_ ++ replaceAllChar c by_ rest
      else String a (replaceAllChar c by_ rest)
  end.

(** [arr.join(sep)]. *)
Definition join (sep : string) (arr : list string) : string :=
  String.concat sep arr.

(** [hay.includes(needle)] on strings: [needle] occurs in [hay] as a
    contiguous substring. *)
Fixpoint includes (hay needle : string) : bool :=
  String.prefix needle hay ||
  match hay with
  | EmptyString => false
  | String _ rest => includes rest needle
  end.

(** [arr.includes(x)] on arrays of strings (strict equality). *)
Definition arrayIncludes (arr : list string) (x : string) : bool :=
  existsb (String.eqb x) arr.

(** [str.endsWith(suffix)]. *)
Fixpoint endsWith (str suffix : string) : bool :=
  String.eqb str suffix ||
  match str with
  | EmptyString => false
  | String _ rest => endsWith rest suffix
  end.

(** Lower-casing of one code unit below 256: the letters A-Z and the
    Latin-1 capitals U+00C0..U+00DE (U+00D7, the multiplication sign,
    excepted) move up by 32; every other unit is unchanged. *)
Definition lowerUnit (a : ascii) : ascii :=
  let n := nat_of_ascii a in
  if (((65 <=? n) && (n <=? 90)) ||
      ((192 <=? n) && (n <=? 222) && negb (n =? 215)))%nat
  then ascii_of_nat (n + 32)
  else a.

(** [str.toLowerCase()]. *)
Fixpoint toLowerCase (str : string) : string :=
  match str with
  | EmptyString => EmptyString
  | String a rest => String (lowerUnit a) (toLowerCase rest)
  end.

(** White space removed by [trim] among the units below 256. *)
Definition isWhite (a : ascii) : bool :=
  let n := nat_of_ascii a in
  (((9 <=? n) && (n <=? 13)) || (n =? 32) || (n =? 160))%nat.

Fixpoint trimStart (str : string) : string :=
  match str with
  | EmptyString => EmptyString
  | String a rest => if isWhite a then trimStart rest else str
  end.

Fixpoint trimEnd (str : string) : string :=
  match str with
  | EmptyString => EmptyString
  | String a rest =>
      match trimEnd rest with
      | EmptyString => if isWhite a then EmptyString else String a EmptyString
      | kept => String a kept
      end
  end.

(** [str.trim()]. *)
Definition trim (str : string) : string := trimEnd (trimStart str).

(** [`${n}`] for an integer [n]. *)
Definition ofInt (n : Z) : string := NilZero.string_of_int (Z.to_int n).

(** [`${n}`] for a length or a count. *)
Definition ofNat (n : nat) : string := NilZero.string_of_uint (Nat.to_uint n).

(** An exit code as the SSH library hands it to the [close] listener:
    an integer, or [null] ([None]) when the remote command was ended by
    a signal and so has no exit status. *)
Definition exitCode : Type := option Z.

(** [code === n] for an exit code and an integer literal. *)
Definition strictEq (code : exitCode) (n : Z) : bool :=
  match code with
  | Some c => Z.eqb c n
  | None => false
  end.

(** [`${code}`] for an exit code. *)
Definition ofCode (code : exitCode) : string :=
  match code with
  | Some c => ofInt c
  | None => "null"
  end.

End Js.

(** ** lib/ssh.js: the shell command builders *)

Module Ssh.

(** [escapeForShell(str)]: [str.replace(/'/g, "'\\''")]. *)
Definition escapeForShell (str : string) : string :=
  Js.replaceAllChar Js.quote "'\''" str.

(** [buildSudoCommand(password, command)]. *)
Definition buildSudoCommand (password command : string) : string :=
  let escapedCommand := Js.replaceAllChar Js.quote "'\''" command in
  "echo '" ++ escapeForShell password ++ "' | sudo -S bash -c '"
           ++ escapedCommand ++ "'".

(** [buildHostsUploadCommand(remoteHostsPath, remoteBackupPath, hostsContent)]. *)
Definition buildHostsUploadCommand
    (remoteHostsPath remoteBackupPath hostsContent : string) : string :=
  let escapedContent := Js.replaceAllChar Js.quote "'\''" hostsContent in
  "cp " ++ remoteHostsPath ++ " " ++ remoteBackupPath
        ++ " && printf '%s\n' '" ++ escapedContent ++ "' > " ++ remoteHostsPath.

(** [buildBrowserKillCommand(browsers)]. *)
Definition buildBrowserKillCommand (browsers : list string) : string :=
  let browserList := Js.join " " browsers in
  "pkill -f '" ++ browserList ++ "' || true".

End Ssh.

(** ** lib/commands.js: the intent parser *)

Module Commands.

(** The parser answers [true] (block), [false] (allow) or [null]. *)
Definition Block : option bool := Some true.
Definition Allow : option bool := Some false.
Definition Unrecognized : option bool := None.

(** [message?.toLowerCase() || ""] for a message that may be absent. *)
Definition messageLower (message : option string) : string :=
  match message with
  | Some m => Js.toLowerCase m
  | None => Js.empty
  end.

(** [(tags || []).map((t) => t.toLowerCase())] for a tag list that may
    be absent (the default parameter covers [undefined], the [||]
    covers [null]). *)
Definition tagsList (tags : option (list string)) : list string :=
  map Js.toLowerCase (match tags with Some l => l | None => [] end).

(** [parseChessCommand(message, tags)]. *)
Definition parseChessCommand
    (message : option string) (tags : option (list string)) : option bool :=
  let messageLower := messageLower message in
  let tagsList := tagsList tags in
  if Js.arrayIncludes tagsList "block" || Js.arrayIncludes tagsList "suspend"
  then Some true
  else if Js.arrayIncludes tagsList "allow" || Js.arrayIncludes tagsList "unblock"
  then Some false
  else if Js.includes messageLower "block" ||
          Js.includes messageLower "suspend" ||
          Js.includes messageLower "stop chess" ||
          Js.includes messageLower "disable chess"
  then Some true
  else if Js.includes messageLower "allow" ||
          Js.includes messageLower "unblock" ||
          Js.includes messageLower "enable chess" ||
          Js.includes messageLower "start chess"
  then Some false
  else None.

End Commands.

(** ** The remote shell's reading of a quoted word

    Environment model (POSIX Shell Command Language, 2.2 Quoting): the
    value the remote shell gives to one word.  Inside single quotes
    every character is literal up to the next single quote; outside
    them a backslash makes the next character literal (a backslash
    followed by a newline is a line continuation), a single quote
    opens a quoted stretch, and an unquoted blank, operator or
    expansion character is not part of a plain word. *)

Module Shell.

Inductive quoting := Unquoted | InSingle.

Definition newline : ascii := ascii_of_nat 10.

(** Characters that end a word or start an expansion when unquoted. *)
Definition isSpecial (a : ascii) : bool :=
  existsb (Ascii.eqb a)
    [" "; ascii_of_nat 9; newline; "|"; "&"; ";"; "<"; ">"; "("; ")";
     "$"; "`"; ascii_of_nat 34; "*"; "?"; "["; "#"; "~"; "="; "%"; "{"; "}"]%char.

(** [wordValue q input]: the text denoted by [input] read as a single
    word from quoting state [q]; [None] when the input is not one
    complete plain word (a quote left open, a dangling backslash, an
    unquoted special character). *)
Fixpoint wordValue (q : quoting) (input : string) : option string :=
  match input with
  | EmptyString =>
      match q with Unquoted => Some EmptyString | InSingle => None end
  | String a rest =>
      match q with
      | InSingle =>
          if Ascii.eqb a Js.quote then wordValue Unquoted rest
          else option_map (String a) (wordValue InSingle rest)
      | Unquoted =>
          if Ascii.eqb a Js.quote then wordValue InSingle rest
          else if Ascii.eqb a Js.backslash then
            match rest with
            | EmptyString => None
            | String b rest' =>
                if Ascii.eqb b newline then wordValue Unquoted rest'
                else option_map (String b) (wordValue Unquoted rest')
            end
          else if isSpecial a then None
          else option_map (String a) (wordValue Unquoted rest)
      end
  end.

(** The word obtained by embedding [body] between single quotes. *)
Definition singleQuoted (body : string) : string :=
  "'" ++ body ++ "'".

(** *** Lists of simple commands

    Environment model (POSIX Shell Command Language, 2.3 Token
    Recognition and 2.9.3 Lists) for the command lines made of simple
    commands joined by [||] and [&&]: how such a line is cut into
    words and operators, and the exit status the shell ends with.  A
    line that uses anything else of the language (another operator, an
    expansion, a reserved word) is outside this model. *)

Inductive token :=
  | Word (value : string)
  | OrIf                       (* the operator || *)
  | AndIf.                     (* the operator && *)

Definition isBlank (a : ascii) : bool :=
  Ascii.eqb a " " || Ascii.eqb a (ascii_of_nat 9).

(** The word being read, with one more character. *)
Definition extend (word : option string) (a : ascii) : option string :=
  match word with
  | Some w => Some (w ++ String a EmptyString)
  | None => Some (String a EmptyString)
  end.

(** A quote starts a word when none is being read. *)
Definition opened (word : option string) : option string :=
  match word with
  | Some w => Some w
  | None => Some EmptyString
  end.

(** The word being read, if any, is complete. *)
Definition flush (word : option string) (rest : list token) : list token :=
  match word with
  | Some w => Word w :: rest
  | None => rest
  end.

(** [tokens q word input]: the tokens of [input], read from quoting
    state [q] with [word] being read; quoting is as for [wordValue],
    blanks separate words, and [None] is the answer for a line outside
    the model. *)
Fixpoint tokens (q : quoting) (word : option string) (input : string)
    : option (list token) :=
  match input with
  | EmptyString =>
      match q with
      | Unquoted => Some (flush word [])
      | InSingle => None
      end
  | String a rest =>
      match q with
      | InSingle =>
          if Ascii.eqb a Js.quote then tokens Unquoted word rest
          else tokens InSingle (extend word a) rest
      | Unquoted =>
          if Ascii.eqb a Js.quote then tokens InSingle (opened word) rest
          else if Ascii.eqb a Js.backslash then
            match rest with
            | EmptyString => None
            | String b rest' =>
                if Ascii.eqb b newline then tokens Unquoted word rest'
                else tokens Unquoted (extend word b) rest'
            end
          else if isBlank a then
            option_map (flush word) (tokens Unquoted None rest)
          else if Ascii.eqb a "|" then
            match rest with
            | EmptyString => None
            | String b rest' =>
                if Ascii.eqb b "|"
                then option_map (fun l => flush word (OrIf :: l))
                       (tokens Unquoted None rest')
                else None
            end
          else if Ascii.eqb a "&" then
            match rest with
            | EmptyString => None
            | String b rest' =>
                if Ascii.eqb b "&"
                then option_map (fun l => flush word (AndIf :: l))
                       (tokens Unquoted None rest')
                else None
            end
          else if isSpecial a then None
          else tokens Unquoted (extend word a) rest
      end
  end.

Inductive connector := Or | And.

(** The first command of a list of tokens, and the commands after it,
    each with the operator before it. *)
Fixpoint andOrList (toks : list token)
    : list string * list (connector * list string) :=
  match toks with
  | [] => ([], [])
  | Word w :: rest =>
      let '(first, others) := andOrList rest in (w :: first, others)
  | OrIf :: rest =>
      let '(first, others) := andOrList rest in ([], (Or, first) :: others)
  | AndIf :: rest =>
      let '(first, others) := andOrList rest in ([], (And, first) :: others)
  end.

Definition reservedWords : list string :=
  ["!"; "case"; "do"; "done"; "elif"; "else"; "esac"; "fi"; "for"; "if";
   "in"; "then"; "until"; "while"; "function"; "select"; "time"].

(** The special built-in utilities: several of them end the shell or
    change how it goes on, so a list that names one is outside the
    model. *)
Definition specialBuiltIns : list string :=
  ["break"; ":"; "."; "continue"; "eval"; "exec"; "exit"; "export";
   "readonly"; "return"; "set"; "shift"; "times"; "trap"; "unset";
   "source"].

(** A simple command that runs a regular utility: it has a first word,
    and that word is neither reserved nor a special built-in. *)
Definition isUtility (command : list string) : bool :=
  match command with
  | [] => false
  | name :: _ =>
      negb (Js.arrayIncludes reservedWords name)
      && negb (Js.arrayIncludes specialBuiltIns name)
  end.

(** The list a command line denotes, when it is one of the model. *)
Definition parse (line : string)
    : option (list string * list (connector * list string)) :=
  match tokens Unquoted None line with
  | None => None
  | Some toks =>
      let '(first, others) := andOrList toks in
      if isUtility first && forallb (fun c => isUtility (snd c)) others
      then Some (first, others)
      else None
  end.

(** The exit status of a list, from the status of what has run so far:
    the command after [||] runs when that status is not zero, the
    command after [&&] when it is zero, and the status of the list is
    that of the last command run.  [run position command] is the
    status the command at [position] ends with when it is run. *)
Fixpoint evalRest (run : nat -> list string -> Z) (position : nat) (status : Z)
    (others : list (connector * list string)) : Z :=
  match others with
  | [] => status
  | (Or, command) :: others' =>
      evalRest run (S position)
        (if Z.eqb status 0 then status else run position command) others'
  | (And, command) :: others' =>
      evalRest run (S position)
        (if Z.eqb status 0 then run position command else status) others'
  end.

Definition evalList (run : nat -> list string -> Z) (first : list string)
    (others : list (connector * list string)) : Z :=
  evalRest run 1 (run 0%nat first) others.

End Shell.

(** ** The run-time model of an [async] function

    An [async] body is a state transformer over the process-wide
    mutable state, recording every effect on the outside world in a
    trace.  A run returns a value, throws an error, or never settles
    (a promise left pending, after which no [catch] or [finally] block
    runs). *)

Module Runtime.

(** The glyphs of the [EMOJI] table of suspend-chess.js, and the three
    further glyphs printed by the webhook listener. *)
Inductive glyph :=
  | SUCCESS | ERROR | INFO | TIMER | CLOCK | HOURGLASS | BLOCK | FIRE
  | FILE | FOLDER | WRITE | CONNECTION | LOCK | ROCKET | SPARKLES
  | PARTY | STOP | CHART | BOOM
  | ENVELOPE | WARNING | TARGET.

(** A JavaScript [Error]; only its [message] is ever read. *)
Inductive jsError := Error (message : string).

Definition message (e : jsError) : string :=
  match e with Error m => m end.

(** A printed line: glyphs, text and inspected error objects. *)
Inductive piece :=
  | Glyph (g : glyph)
  | Text (s : string)
  | Inspect (e : jsError).

(** The effects of the program on the outside world. *)
Inductive event :=
  | ConsoleLog (line : list piece)          (* console.log *)
  | ConsoleError (line : list piece)        (* console.error *)
  | StdoutWrite (line : list piece)         (* process.stdout.write *)
  | TimerProgress (elapsedSeconds totalSeconds : Z) (emoji : glyph)
                                            (* the progress line of the countdown *)
  | Question (prompt : list piece)          (* rl.question, then rl.close *)
  | ReadFileSync (path : string)            (* fs.readFileSync(path, "utf8") *)
  | SshConnect (host username password : string)   (* conn.connect(SSH_CONFIG) *)
  | SshExec (command : string)              (* conn.exec(command, ...) *)
  | SshEnd                                  (* conn.end() *)
  | ResJson (status : nat) (body : list (string * string)).
                                            (* res.status(status).json(body) *)

(** The mutable fields of [SSH_CONFIG]; the time-outs and keep-alive
    settings are constants handed to the SSH library unread. *)
Record SshConfig := {
  host : string;
  username : string;
  suspendChess : bool;
  password : string
}.

(** The process state: [SSH_CONFIG], whether the response of the
    request being handled has been sent, and the trace so far. *)
Record world := {
  SSH_CONFIG : SshConfig;
  headersSent : bool;
  trace : list event
}.

Definition setSuspendChess (b : bool) (w : world) : world :=
  {| SSH_CONFIG := {| host := host (SSH_CONFIG w);
                      username := username (SSH_CONFIG w);
                      suspendChess := b;
                      password := password (SSH_CONFIG w) |};
     headersSent := headersSent w;
     trace := trace w |}.

Definition setPassword (p : string) (w : world) : world :=
  {| SSH_CONFIG := {| host := host (SSH_CONFIG w);
                      username := username (SSH_CONFIG w);
                      suspendChess := suspendChess (SSH_CONFIG w);
                      password := p |};
     headersSent := headersSent w;
     trace := trace w |}.

Definition setHeadersSent (b : bool) (w : world) : world :=
  {| SSH_CONFIG := SSH_CONFIG w; headersSent := b; trace := trace w |}.

Definition record (evs : list event) (w : world) : world :=
  {| SSH_CONFIG := SSH_CONFIG w;
     headersSent := headersSent w;
     trace := trace w ++ evs |}.

(** How the SSH library answers [conn.connect]. *)
Inductive connectOutcome :=
  | Ready
  | ConnectError (err : jsError)
  | ConnectTimeout.

(** How a remote command ends: the stream closes with an exit code and
    the captured output; or it closes with the captured output and no
    exit code ([null]), the command having been ended by a signal; or
    the channel raises an error. *)
Inductive execOutcome :=
  | Closed (code : Z) (output : string)
  | ClosedBySignal (output : string)
  | Failed (err : jsError).

(** The outside world.  Every answer may depend on all that happened
    before it (the trace). *)
Record Env := {
  cwd : string;                                           (* process.cwd() *)
  pathJoin : string -> string -> string;                  (* path.join *)
  readFileSync : list event -> string -> string + jsError;
  answer : list event -> string;                           (* typed at the prompt *)
  connect : list event -> connectOutcome;
  exec : list event -> string -> execOutcome
}.

Inductive outcome (A : Type) :=
  | Returned (a : A)
  | Thrown (e : jsError)
  | Pending.
Arguments Returned {A} a.
Arguments Thrown {A} e.
Arguments Pending {A}.

Definition M (A : Type) : Type := world -> outcome A * world.

Definition ret {A} (a : A) : M A := fun w => (Returned a, w).

Definition bind {A B} (m : M A) (k : A -> M B) : M B :=
  fun w =>
    match m w with
    | (Returned a, w') => k a w'
    | (Thrown e, w') => (Thrown e, w')
    | (Pending, w') => (Pending, w')
    end.

Definition throw {A} (e : jsError) : M A := fun w => (Thrown e, w).

Definition pending {A} : M A := fun w => (Pending, w).

Definition get : M world := fun w => (Returned w, w).

Definition modify (f : world -> world) : M unit := fun w => (Returned tt, f w).

Definition emit (ev : event) : M unit := modify (record [ev]).

(** [try { body } catch (error) { handler }]. *)
Definition tryCatch {A} (body : M A) (handler : jsError -> M A) : M A :=
  fun w =>
    match body w with
    | (Thrown e, w') => handler e w'
    | settled => settled
    end.

(** [try { body } finally { final }]: [final] runs when [body] returns
    or throws, and an error of [final] replaces the outcome. *)
Definition tryFinally {A} (body : M A) (final : M unit) : M A :=
  fun w =>
    match body w with
    | (Pending, w') => (Pending, w')
    | (r, w') =>
        match final w' with
        | (Returned _, w'') => (r, w'')
        | (Thrown e, w'') => (Thrown e, w'')
        | (Pending, w'') => (Pending, w'')
        end
    end.

Declare Scope js_scope.
Delimit Scope js_scope with js.
Notation "x <- m ;; k" := (bind m (fun x => k))
  (at level 61, m at next level, right associativity) : js_scope.
Notation "m ;; k" := (bind m (fun _ => k))
  (at level 61, right associativity) : js_scope.

(** The events a run adds to the trace of [w]. *)
Definition added {A} (m : M A) (w : world) : list event :=
  skipn (List.length (trace w)) (trace (snd (m w))).

End Runtime.

(** ** lib/file-utils.js *)

Module FileUtils.
Import Runtime.
Local Open Scope js_scope.

(** The [config] object handed to [readLocalHostsFile]. *)
Record HostsConfig := {
  configDir : string;
  blockedFileName : string;
  allowedFileName : string
}.

Section WithEnv.
Variable env : Env.

(** [fs.readFileSync(localPath, "utf8")]. *)
Definition fsReadFileSync (localPath : string) : M string :=
  w <- get ;;
  emit (ReadFileSync localPath) ;;
  match readFileSync env (trace w) localPath with
  | inl content => ret content
  | inr err => throw err
  end.

(** [readLocalHostsFile(config, isBlocking)]. *)
Definition readLocalHostsFile (config : HostsConfig) (isBlocking : bool) : M string :=
  let fileName :=
    if isBlocking then blockedFileName config else allowedFileName config in
  let localPath := pathJoin env (configDir config) fileName in
  tryCatch
    (content <- fsReadFileSync localPath ;;
     ret content)
    (fun error =>
       throw (Error ("Failed to read hosts file at " ++ localPath ++ ": "
                      ++ message error))).

End WithEnv.
End FileUtils.

(** ** suspend-chess.js: the orchestrator *)

Module SuspendChess.
Import Runtime.
Local Open Scope js_scope.

(** [TIMER_CONFIG]. *)
Record TimerConfig := {
  waitTimeMinutes : Z;
  updateIntervalSeconds : Z
}.

Definition TIMER_CONFIG : TimerConfig :=
  {| waitTimeMinutes := 0; updateIntervalSeconds := 2 |}.

Definition REMOTE_HOSTS_PATH : string := "/etc/hosts".
Definition REMOTE_HOSTS_BACKUP_PATH : string := "/etc/hosts.backup".
Definition BROWSERS_TO_KILL : list string := ["firefox"; "brave"].
Definition PKILL_SUCCESS_CODE : Z := 0.
Definition PKILL_NO_PROCESSES_CODE : Z := 1.

(** [HOSTS_FILE_NAMES]. *)
Definition HOSTS_FILE_NAMES_BLOCKED : string := "hostsuncommented".
Definition HOSTS_FILE_NAMES_ALLOWED : string := "hostscommented".

(** [log(emoji, message)]. *)
Definition log (emoji : glyph) (msg : string) : M unit :=
  emit (ConsoleLog [Glyph emoji; Text (" " ++ msg)]).

(** [logError(message)]. *)
Definition logError (msg : string) : M unit :=
  emit (ConsoleError [Glyph ERROR; Text (" " ++ msg)]).

(** [logSuccess(message)]. *)
Definition logSuccess (msg : string) : M unit :=
  emit (ConsoleLog [Glyph SUCCESS; Text (" " ++ msg)]).

(** [logSSHOutput(output)]. *)
Definition logSSHOutput (output : string) : M unit :=
  log WRITE ("Command output: " ++ Js.trim output).

(** [clearLine()]: carriage return, then the erase-line escape. *)
Definition clearLine : M unit :=
  emit (StdoutWrite
          [Text (String (ascii_of_nat 13) (String (ascii_of_nat 27) "[K"))]).

(** [buildCompleteUploadCommand(password, hostsContent)]. *)
Definition buildCompleteUploadCommand (password hostsContent : string) : string :=
  let uploadPart :=
    Ssh.buildHostsUploadCommand
      REMOTE_HOSTS_PATH REMOTE_HOSTS_BACKUP_PATH hostsContent in
  Ssh.buildSudoCommand password uploadPart.

(** [getTimerAction(isBlocking)]. *)
Definition getTimerAction (isBlocking : bool) : string * glyph :=
  (if isBlocking then "blocking" else "unblocking",
   if isBlocking then BLOCK else SUCCESS).

Section WithEnv.
Variable env : Env.

(** [promptPassword(prompt)]. *)
Definition promptPassword (prompt : list piece) : M string :=
  w <- get ;;
  emit (Question prompt) ;;
  ret (answer env (trace w)).

(** [executeSSHCommand(conn, command)] of lib/ssh.js: the promise
    resolves with the exit code and the captured output when the
    stream closes, and rejects when the channel raises an error. *)
Definition executeSSHCommand (command : string) : M (Js.exitCode * string) :=
  w <- get ;;
  emit (SshExec command) ;;
  match exec env (trace w) command with
  | Closed code output => ret (Some code, output)
  | ClosedBySignal output => ret (None, output)
  | Failed err => throw err
  end.

(** The executor returned by [createLoggedCommandExecutor(conn)]; a
    non-empty output is logged. *)
Definition executeCommand (command : string) : M (Js.exitCode * string) :=
  result <- executeSSHCommand command ;;
  (match snd result with
   | EmptyString => ret tt
   | output => logSSHOutput output
   end) ;;
  ret result.

(** [readLocalHostsFile(isBlocking)]. *)
Definition readLocalHostsFile (isBlocking : bool) : M string :=
  let config :=
    {| FileUtils.configDir := pathJoin env (cwd env) "config";
       FileUtils.blockedFileName := HOSTS_FILE_NAMES_BLOCKED;
       FileUtils.allowedFileName := HOSTS_FILE_NAMES_ALLOWED |} in
  let hostsFileName :=
    if isBlocking then HOSTS_FILE_NAMES_BLOCKED else HOSTS_FILE_NAMES_ALLOWED in
  log FILE ("Using hosts file: " ++ hostsFileName) ;;
  log FOLDER ("Local path: "
              ++ pathJoin env (FileUtils.configDir config) hostsFileName) ;;
  tryCatch
    (hostsContent <- FileUtils.readLocalHostsFile env config isBlocking ;;
     logSuccess ("Read local hosts file ("
                 ++ Js.ofNat (String.length hostsContent) ++ " characters)") ;;
     ret hostsContent)
    (fun error =>
       logError ("Error reading local hosts file: " ++ message error) ;;
       throw error).

(** [establishSSHConnection(conn)].  [SSH_CONFIG] has no [privateKey],
    so the password is asked for exactly when it is empty. *)
Definition establishSSHConnection : M unit :=
  w <- get ;;
  log CONNECTION ("Attempting SSH connection to "
                  ++ username (SSH_CONFIG w) ++ "@" ++ host (SSH_CONFIG w)
                  ++ "...") ;;
  (match password (SSH_CONFIG w) with
   | EmptyString =>
       p <- promptPassword
              [Glyph LOCK;
               Text (" Enter password for " ++ username (SSH_CONFIG w) ++ "@"
                     ++ host (SSH_CONFIG w) ++ ": ")] ;;
       modify (setPassword p)
   | _ => ret tt
   end) ;;
  w <- get ;;
  emit (SshConnect (host (SSH_CONFIG w)) (username (SSH_CONFIG w))
                   (password (SSH_CONFIG w))) ;;
  match connect env (trace w) with
  | Ready => logSuccess "SSH connection established"
  | ConnectError err =>
      logError ("SSH connection error: " ++ message err) ;;
      throw err
  | ConnectTimeout =>
      logError "SSH connection timed out" ;;
      throw (Error "SSH connection timeout")
  end.

(** [killBrowserProcess(conn, browserName, executeCommand)]. *)
Definition killBrowserProcess (browserName : string) : M unit :=
  tryCatch
    (let command := Ssh.buildBrowserKillCommand [browserName] in
     result <- executeCommand command ;;
     let code := fst result in
     if Js.strictEq code PKILL_SUCCESS_CODE then
       logSuccess (browserName ++ " processes killed successfully")
     else if Js.strictEq code PKILL_NO_PROCESSES_CODE then
       log INFO ("No " ++ browserName ++ " processes found to kill")
     else
       logError ("Failed to kill " ++ browserName ++ ", exit code: "
                 ++ Js.ofCode code))
    (fun error =>
       logError ("Error killing " ++ browserName ++ ": " ++ message error) ;;
       throw error).

(** The loop [for (const browser of browsers) await killBrowserProcess(...)]. *)
Fixpoint killBrowsers (browsers : list string) : M unit :=
  match browsers with
  | [] => ret tt
  | browser :: rest => killBrowserProcess browser ;; killBrowsers rest
  end.

(** [killAllBrowsers(conn, executeCommand)]. *)
Definition killAllBrowsers : M unit := killBrowsers BROWSERS_TO_KILL.

(** [uploadHostsFile(conn, hostsContent, executeCommand)]. *)
Definition uploadHostsFile (hostsContent : string) : M unit :=
  w <- get ;;
  let uploadCommand :=
    buildCompleteUploadCommand (password (SSH_CONFIG w)) hostsContent in
  result <- executeCommand uploadCommand ;;
  let code := fst result in
  if negb (Js.strictEq code 0) then
    throw (Error ("Upload failed with exit code " ++ Js.ofCode code))
  else
    logSuccess "Hosts file updated successfully".

(** The steps of [executeRemoteCommands] up to the upload: connect,
    then read the local hosts file chosen by [SSH_CONFIG.suspendChess]. *)
Definition connectAndRead : M string :=
  establishSSHConnection ;;
  w <- get ;;
  readLocalHostsFile (suspendChess (SSH_CONFIG w)).

(** [executeRemoteCommands()]. *)
Definition executeRemoteCommands : M unit :=
  tryFinally
    (hostsContent <- connectAndRead ;;
     uploadHostsFile hostsContent ;;
     killAllBrowsers ;;
     log PARTY "All commands executed successfully!")
    (emit SshEnd).

(** The interval callback of [startTimer], run until the countdown is
    over.  [fuel] bounds the number of ticks; a countdown that outlasts
    it never resolves the promise. *)
Fixpoint timerTicks (fuel : nat) (elapsedSeconds totalSeconds : Z)
    (action : string) (emoji : glyph) : M unit :=
  match fuel with
  | O => pending
  | S fuel' =>
      let elapsedSeconds :=
        (elapsedSeconds + updateIntervalSeconds TIMER_CONFIG)%Z in
      let remainingSeconds := (totalSeconds - elapsedSeconds)%Z in
      if (remainingSeconds <=? 0)%Z then
        clearLine ;;
        log CLOCK ("Timer completed! Proceeding to " ++ action
                   ++ " chess sites..." ++ String (ascii_of_nat 10) EmptyString)
      else
        emit (TimerProgress elapsedSeconds totalSeconds emoji) ;;
        timerTicks fuel' elapsedSeconds totalSeconds action emoji
  end.

(** [startTimer(isBlocking)].  With a positive interval the countdown
    is over after at most [totalSeconds] ticks, and at the first tick
    when [totalSeconds] is not positive. *)
Definition startTimer (isBlocking : bool) : M unit :=
  let totalSeconds := (waitTimeMinutes TIMER_CONFIG * 60)%Z in
  let '(action, emoji) := getTimerAction isBlocking in
  log TIMER ("Timer started: Waiting " ++ Js.ofInt (waitTimeMinutes TIMER_CONFIG)
             ++ " minutes before " ++ action ++ " chess sites") ;;
  log CHART ("Display updates every "
             ++ Js.ofInt (updateIntervalSeconds TIMER_CONFIG) ++ " seconds"
             ++ String (ascii_of_nat 10) EmptyString) ;;
  timerTicks (S (Z.to_nat totalSeconds)) 0 totalSeconds action emoji.

(** [logScriptMode(isBlocking)]. *)
Definition logScriptMode (isBlocking : bool) : M unit :=
  if isBlocking then
    log BLOCK "Mode: BLOCKING chess sites (lichess.org will be blocked)"
  else
    log SUCCESS "Mode: ALLOWING chess sites (lichess.org will be accessible)".

(** The [try] block of [suspendChess]. *)
Definition suspendChessBody : M bool :=
  log ROCKET "Starting chess suspension script..." ;;
  w <- get ;;
  logScriptMode (suspendChess (SSH_CONFIG w)) ;;
  log TIMER ("Timer configured for " ++ Js.ofInt (waitTimeMinutes TIMER_CONFIG)
             ++ " minutes" ++ String (ascii_of_nat 10) EmptyString) ;;
  w <- get ;;
  startTimer (suspendChess (SSH_CONFIG w)) ;;
  w <- get ;;
  log CONNECTION ("Connecting to " ++ username (SSH_CONFIG w) ++ "@"
                  ++ host (SSH_CONFIG w) ++ "...") ;;
  executeRemoteCommands ;;
  log SPARKLES "Script completed successfully!" ;;
  ret true.

(** [suspendChess(shouldBlock = SSH_CONFIG.suspendChess)]; an absent
    argument takes the default. *)
Definition suspendChess (shouldBlock : option bool) : M bool :=
  w <- get ;;
  let shouldBlock :=
    match shouldBlock with
    | Some b => b
    | None => Runtime.suspendChess (SSH_CONFIG w)
    end in
  let originalSetting := Runtime.suspendChess (SSH_CONFIG w) in
  modify (setSuspendChess shouldBlock) ;;
  tryFinally
    (tryCatch
       suspendChessBody
       (fun error =>
          logError ("Script failed: " ++ message error) ;;
          throw error))
    (modify (setSuspendChess originalSetting)).

End WithEnv.
End SuspendChess.

(** ** ntfy/ntfy-listener.js: the webhook front-end *)

Module NtfyListener.
Import Runtime.
Local Open Scope js_scope.

(** The JSON body of a request to [POST /ntfy-webhook]; every field
    may be absent. *)
Record Notification := {
  message : option string;
  title : option string;
  priority : option Z;
  tags : option (list string)
}.

(** [`${value || "N/A"}`] for a text that may be absent or empty. *)
Definition orNA (value : option string) : string :=
  match value with
  | None | Some EmptyString => "N/A"
  | Some v => v
  end.

(** [`${message}`] for a text that may be absent. *)
Definition interpolate (value : option string) : string :=
  match value with
  | None => "undefined"
  | Some v => v
  end.

(** [`${priority || "N/A"}`]: zero is falsy. *)
Definition priorityOrNA (priority : option Z) : string :=
  match priority with
  | None | Some 0%Z => "N/A"
  | Some p => Js.ofInt p
  end.

(** [res.json(body)] after [res.status(status)]: Express refuses to
    write a second response once the headers are sent. *)
Definition resJson (status : nat) (body : list (string * string)) : M unit :=
  w <- get ;;
  if headersSent w then
    throw (Error "Cannot set headers after they are sent to the client")
  else
    emit (ResJson status body) ;;
    modify (setHeadersSent true).

(** The body of the ignored response. *)
Definition ignoredBody : list (string * string) :=
  [("status", "ignored"); ("message", "Not a valid chess command")].

(** The body of the acknowledgement. *)
Definition acceptedBody (shouldBlock : bool) : list (string * string) :=
  [("status", "accepted");
   ("action", if shouldBlock then "blocking" else "allowing");
   ("message", "Processing chess command...")].

(** The four lines printed when a notification arrives. *)
Definition logReceived (req : Notification) : M unit :=
  emit (ConsoleLog [Glyph ENVELOPE; Text " Received ntfy notification:"]) ;;
  emit (ConsoleLog [Text ("  Title: " ++ orNA (title req))]) ;;
  emit (ConsoleLog [Text ("  Message: " ++ interpolate (message req))]) ;;
  emit (ConsoleLog [Text ("  Priority: " ++ priorityOrNA (priority req))]) ;;
  emit (ConsoleLog
          [Text ("  Tags: " ++ orNA (option_map (Js.join ", ") (tags req)))]).

Section WithEnv.
Variable env : Env.

(** What the handler does once the acknowledgement is sent. *)
Definition afterAccepted (shouldBlock : bool) : M unit :=
  emit (ConsoleLog
          [Text (String (ascii_of_nat 10) EmptyString); Glyph TARGET;
           Text (" Executing: " ++ (if shouldBlock then "BLOCK" else "ALLOW")
                 ++ " chess sites" ++ String (ascii_of_nat 10) EmptyString)]) ;;
  SuspendChess.suspendChess env (Some shouldBlock) ;;
  emit (ConsoleLog [Glyph SUCCESS; Text " Command completed successfully!"]).

(** The handler of [app.post("/ntfy-webhook", ...)]. *)
Definition ntfyWebhook (req : Notification) : M unit :=
  tryCatch
    (logReceived req ;;
     let shouldBlock := Commands.parseChessCommand (message req) (tags req) in
     match shouldBlock with
     | None =>
         emit (ConsoleLog
                 [Glyph WARNING;
                  Text "  Message not recognized as a chess command"]) ;;
         resJson 200 ignoredBody
     | Some shouldBlock =>
         resJson 200 (acceptedBody shouldBlock) ;;
         afterAccepted shouldBlock
     end)
    (fun error =>
       emit (ConsoleError
               [Glyph ERROR; Text " Error processing ntfy notification:";
                Text " "; Inspect error]) ;;
       resJson 500 [("status", "error"); ("message", Runtime.message error)]).

End WithEnv.
End NtfyListener.

(** ** A sample outside world, for running the model *)

Module Sample.
Import Runtime.

(** The remote shell of the sample: the upload command (run through
    [sudo]) exits with [uploadCode], every other command with
    [killCode]; the channel raises [killError] for the commands in
    [failing]. *)
Definition sampleExec (uploadCode killCode : Z) (failing : list string)
    (tr : list event) (command : string) : execOutcome :=
  if Js.arrayIncludes failing command then Failed (Error "channel closed")
  else if Js.includes command "sudo -S" then Closed uploadCode EmptyString
  else Closed killCode EmptyString.

Definition sampleEnv (uploadCode killCode : Z) (failing : list string) : Env :=
  {| cwd := "/home/user/chess";
     pathJoin := fun a b => a ++ "/" ++ b;
     readFileSync := fun _ _ => inl "127.0.0.1 lichess.org";
     answer := fun _ => "secret";
     connect := fun _ => Ready;
     exec := sampleExec uploadCode killCode failing |}.

Definition sampleWorld : world :=
  {| SSH_CONFIG := {| host := "192.168.0.10"; username := "user";
                      suspendChess := true; password := "password" |};
     headersSent := false;
     trace := [] |}.

(** A remote side on which every command that exits does so with
    status zero, and the shell running the kill command for [firefox]
    is ended by a signal (for instance because the pattern given to
    [pkill -f] also matches the command line of that shell). *)
Definition signalExec (tr : list event) (command : string) : execOutcome :=
  if String.eqb command (Ssh.buildBrowserKillCommand ["firefox"])
  then ClosedBySignal EmptyString
  else Closed 0 EmptyString.

Definition signalEnv : Env :=
  {| cwd := "/home/user/chess";
     pathJoin := fun a b => a ++ "/" ++ b;
     readFileSync := fun _ _ => inl "127.0.0.1 lichess.org";
     answer := fun _ => "secret";
     connect := fun _ => Ready;
     exec := signalExec |}.

End Sample.

(** ** Vocabulary of the statements *)

Module Props.
Import Runtime.

(** The text [escapeForShell] is specified to produce: every single
    quote replaced by the four characters quote, backslash, quote,
    quote, every other character kept. *)
Definition quoteImage (a : ascii) : string :=
  if Ascii.eqb a Js.quote then "'\''" else String a EmptyString.

Definition specEscape (s : string) : string :=
  String.concat EmptyString (map quoteImage (list_ascii_of_string s)).

(** The remote commands among some events, in order. *)
Definition commandsOf (evs : list event) : list string :=
  flat_map (fun ev => match ev with SshExec c => [c] | _ => [] end) evs.

Definition isResJson (ev : event) : bool :=
  match ev with ResJson _ _ => true | _ => false end.

Definition isConsole (ev : event) : bool :=
  match ev with ConsoleLog _ | ConsoleError _ => true | _ => false end.

(** Events other than closing the session, reading a local file and
    answering the request. *)
Definition plain (ev : event) : bool :=
  match ev with
  | SshEnd | ReadFileSync _ | ResJson _ _ => false
  | _ => true
  end.

(** [quiet b P m]: from every state whose default-mode flag is [b],
    [m] settles, leaves the flag at [b] and the response state as it
    was, and only adds events to the trace, all of them satisfying
    [P]. *)
Definition quiet {A} (b : bool) (P : event -> Prop) (m : M A) : Prop :=
  forall w,
    suspendChess (SSH_CONFIG w) = b ->
    fst (m w) <> Pending /\
    suspendChess (SSH_CONFIG (snd (m w))) = b /\
    headersSent (snd (m w)) = headersSent w /\
    exists evs,
      trace (snd (m w)) = (trace w ++ evs)%list /\ Forall P evs.

(** The kill command the orchestrator runs for one process name. *)
Definition killCommand (browserName : string) : string :=
  Ssh.buildBrowserKillCommand [browserName].

(** The line logged for a non-empty command output. *)
Definition outputLog (output : string) : list event :=
  match output with
  | EmptyString => []
  | _ => [ConsoleLog [Glyph WRITE;
                      Text (" Command output: " ++ Js.trim output)]]
  end.

(** The three lines [killBrowserProcess] can log after a kill command
    that closed. *)
Definition killedLog (browserName : string) : event :=
  ConsoleLog [Glyph SUCCESS;
              Text (" " ++ browserName ++ " processes killed successfully")].

Definition noProcessesLog (browserName : string) : event :=
  ConsoleLog [Glyph INFO;
              Text (" No " ++ browserName ++ " processes found to kill")].

Definition killFailedLog (browserName : string) (code : Z) : event :=
  ConsoleError [Glyph ERROR;
                Text (" Failed to kill " ++ browserName ++ ", exit code: "
                      ++ Js.ofInt code)].

Definition killLog (browserName : string) (code : Z) : event :=
  if Z.eqb code 0 then killedLog browserName
  else if Z.eqb code 1 then noProcessesLog browserName
  else killFailedLog browserName code.

(** The line logged when the channel raises an error during a kill. *)
Definition killErrorLog (browserName : string) (err : jsError) : event :=
  ConsoleError [Glyph ERROR;
                Text (" Error killing " ++ browserName ++ ": " ++ message err)].

(** Every kill command for the names [browsers] closes with some exit
    code, whenever it is run. *)
Definition killsClose (env : Env) (browsers : list string) : Prop :=
  forall tr b, In b browsers ->
    exists code output, exec env tr (killCommand b) = Closed code output.

(** The run started in [w] reaches the upload phase in state [w1],
    with [hostsContent] read from the local file. *)
Definition reachesUpload (env : Env) (w : world) (hostsContent : string)
    (w1 : world) : Prop :=
  SuspendChess.connectAndRead env w = (Returned hostsContent, w1).

(** The run started in [w] reaches the process-kill phase in state [w2]. *)
Definition reachesKill (env : Env) (w w2 : world) : Prop :=
  bind (SuspendChess.connectAndRead env) (SuspendChess.uploadHostsFile env) w
  = (Returned tt, w2).

(** The line logged when a kill command closes without an exit code. *)
Definition killSignalLog (browserName : string) : event :=
  ConsoleError [Glyph ERROR;
                Text (" Failed to kill " ++ browserName ++ ", exit code: "
                      ++ Js.ofCode None)].

(** A text without a single quote. *)
Fixpoint quoteFree (s : string) : bool :=
  match s with
  | EmptyString => true
  | String a rest => negb (Ascii.eqb a Js.quote) && quoteFree rest
  end.

(** The remote side runs command lines in a POSIX shell on which the
    utility [true] ends with status zero: when a command line that is
    a list of simple commands ends with an exit code, the code is the
    exit status of that list, whatever the other utilities do. *)
Definition runsShell (env : Env) : Prop :=
  forall tr command code output first others,
    exec env tr command = Closed code output ->
    Shell.parse command = Some (first, others) ->
    exists run : nat -> list string -> Z,
      (forall position, run position ["true"] = 0%Z) /\
      code = Shell.evalList run first others.

(** The last code unit of a string. *)
Fixpoint lastUnit (s : string) : option ascii :=
  match s with
  | EmptyString => None
  | String a EmptyString => Some a
  | String _ rest => lastUnit rest
  end.

Definition isDigit (a : ascii) : bool :=
  ((48 <=? nat_of_ascii a) && (nat_of_ascii a <=? 57))%nat.

(** The path of the local hosts file for a mode. *)
Definition hostsPath (env : Env) (isBlocking : bool) : string :=
  pathJoin env (pathJoin env (cwd env) "config")
    (if isBlocking then SuspendChess.HOSTS_FILE_NAMES_BLOCKED
     else SuspendChess.HOSTS_FILE_NAMES_ALLOWED).

(** The local files read among some events, in order. *)
Definition filesRead (evs : list event) : list string :=
  flat_map (fun ev => match ev with ReadFileSync p => [p] | _ => [] end) evs.


(** The mode a call of [suspendChess] runs in. *)
Definition modeOf (shouldBlock : option bool) (w : world) : bool :=
  match shouldBlock with
  | Some b => b
  | None => suspendChess (SSH_CONFIG w)
  end.

(** The [try ... catch] of [suspendChess], without its [finally]. *)
Definition guarded (env : Env) : M bool :=
  tryCatch (SuspendChess.suspendChessBody env)
    (fun error =>
       bind (SuspendChess.logError ("Script failed: " ++ message error))
            (fun _ => throw error)).


End Props.

(** ** suspend-chess.js: the command-line entry point and the time display *)

Module SuspendChessCli.
Import Runtime.
Local Open Scope js_scope.

(** [EXIT_CODES]. *)
Definition EXIT_CODES_SUCCESS : Z := 0.
Definition EXIT_CODES_ERROR : Z := 1.

(** [COMMAND_LINE_ARGS]. *)
Definition COMMAND_LINE_ARGS_BLOCK : string := "block".
Definition COMMAND_LINE_ARGS_ALLOW : string := "allow".

(** [Number.MAX_SAFE_INTEGER], two to the power 53 less one: up to it
    every whole number is a number of the language. *)
Definition MAX_SAFE_INTEGER : Z := 9007199254740991.

(** [formatTime(seconds)] on a whole number of seconds up to
    [MAX_SAFE_INTEGER] in size.  There the arithmetic of the language
    is that of the integers: [%] is the remainder with the sign of the
    dividend and is exact; the quotient by 3600 is rounded to a number
    less than 1/3600 away from it, so [Math.floor] of it is the floor
    division; and a whole number below ten to the power 21 prints as
    its decimal digits.  Beyond that range the function below is not
    the program's. *)
Definition formatTime (seconds : Z) : string :=
  let hours := (seconds / 3600)%Z in
  let minutes := (Z.rem seconds 3600 / 60)%Z in
  let secs := Z.rem seconds 60 in
  if (0 <? hours)%Z then
    Js.ofInt hours ++ "h " ++ Js.ofInt minutes ++ "m " ++ Js.ofInt secs ++ "s"
  else if (0 <? minutes)%Z then
    Js.ofInt minutes ++ "m " ++ Js.ofInt secs ++ "s"
  else
    Js.ofInt secs ++ "s".

(** [parseCommandLineArgs(args)]: the mode asked for, or [null]. *)
Definition parseCommandLineArgs (args : list string) : M (option bool) :=
  match args with
  | [] =>
      w <- get ;;
      ret (Some (suspendChess (SSH_CONFIG w)))
  | [arg] =>
      let command := Js.toLowerCase arg in
      if String.eqb command COMMAND_LINE_ARGS_BLOCK then ret (Some true)
      else if String.eqb command COMMAND_LINE_ARGS_ALLOW then ret (Some false)
      else
        SuspendChess.logError ("Invalid argument: " ++ command) ;;
        ret None
  | _ =>
      SuspendChess.logError "Too many arguments" ;;
      ret None
  end.

(** [displayUsage()]. *)
Definition displayUsage : M unit :=
  SuspendChess.logError "Usage: node suspend-chess.js [block|allow]" ;;
  emit (ConsoleError
          [Text ("  " ++ COMMAND_LINE_ARGS_BLOCK ++ " - Block chess sites")]) ;;
  emit (ConsoleError
          [Text ("  " ++ COMMAND_LINE_ARGS_ALLOW ++ " - Allow chess sites")]) ;;
  emit (ConsoleError [Text "  (no argument) - Use default from config"]).

Section WithEnv.
Variable env : Env.

(** [main()], given [process.argv].  [process.exit(code)] ends the
    process on the spot, so nothing after it runs: the value returned
    here is the code handed to the [process.exit] that is reached. *)
Definition main (argv : list string) : M Z :=
  tryCatch
    (let args := skipn 2 argv in
     shouldBlock <- parseCommandLineArgs args ;;
     match shouldBlock with
     | None =>
         displayUsage ;;
         ret EXIT_CODES_ERROR
     | Some shouldBlock =>
         SuspendChess.suspendChess env (Some shouldBlock) ;;
         ret EXIT_CODES_SUCCESS
     end)
    (fun error =>
       SuspendChess.logError ("Script failed: " ++ message error) ;;
       ret EXIT_CODES_ERROR).

End WithEnv.
End SuspendChessCli.

(** ** ntfy-subscriber.js: the subscription front-end *)

Module NtfySubscriber.
Import Runtime.
Local Open Scope js_scope.

(** A value produced by [JSON.parse].  A number is kept by the text a
    template literal gives for it and by whether it is zero. *)
#[warnings="-register-all"]
Inductive json :=
  | JNull
  | JBool (b : bool)
  | JNumber (text : string) (zero : bool)
  | JString (s : string)
  | JArray (items : list json)
  | JObject (fields : list (string * json)).

(** The own property [key] of an object built by [JSON.parse]: of
    several members with the same name the last one counts. *)
Fixpoint member (key : string) (fields : list (string * json)) : option json :=
  match fields with
  | [] => None
  | (name, value) :: rest =>
      match member key rest with
      | Some later => Some later
      | None => if String.eqb name key then Some value else None
      end
  end.

(** [value.key] for a value other than [null] and a key that no
    prototype defines: a member of an object, [undefined] ([None]) on
    every other value. *)
Definition property (key : string) (value : json) : option json :=
  match value with
  | JObject fields => member key fields
  | _ => None
  end.

(** Whether a value counts as true in [value || fallback]. *)
Definition truthy (value : option json) : bool :=
  match value with
  | None | Some JNull => false
  | Some (JBool b) => b
  | Some (JNumber _ zero) => negb zero
  | Some (JString s) => negb (String.eqb s EmptyString)
  | Some (JArray _) | Some (JObject _) => true
  end.

Definition newline : string := String (ascii_of_nat 10) EmptyString.

(** [event === "keepalive"]. *)
Definition isKeepalive (event : option json) : bool :=
  match event with
  | Some (JString e) => String.eqb e "keepalive"
  | _ => false
  end.

(** A result that is a value or a thrown error. *)
Definition settle {A} (result : A + jsError) : M A :=
  match result with
  | inl a => ret a
  | inr e => throw e
  end.

(** [str.split("\n")]: the stretches between line feeds; never an
    empty list. *)
Fixpoint splitLines (str : string) : list string :=
  match str with
  | EmptyString => [EmptyString]
  | String a rest =>
      if Ascii.eqb a (ascii_of_nat 10) then EmptyString :: splitLines rest
      else
        match splitLines rest with
        | first :: others => String a first :: others
        | [] => [String a EmptyString]
        end
  end.

(** [lines.pop() || ""] together with what is left in [lines]: the
    complete lines, and the unfinished last line kept as the buffer. *)
Definition popLast (lines : list string) : list string * string :=
  (removelast lines, last lines EmptyString).

Section WithEnv.
Variable env : Env.
(** [new Date(time * 1000).toLocaleString()] for a [time] that converts
    to a number; the text depends on the locale and the time zone of
    the host. *)
Variable toLocaleString : option json -> string.
(** The clipboard glyph of the waiting line, which the glyph table
    does not list. *)
Variable CLIPBOARD : piece.
(** [JSON.parse(line)]: the value, or the error thrown for a line that
    is not a JSON text. *)
Variable jsonParse : string -> json + jsError.
(** The [TypeError] the engine throws when the named expression is
    evaluated on the given value; its message is the engine's. *)
Variable typeError : string -> option json -> jsError.

(** The text of a value in a template literal or in [join].  An array
    is the texts of its items joined by commas, [null] items counting
    as empty; an object is [[object Object]], unless a member named
    [toString] hides the method that says so: the conversion then finds
    nothing to call and throws. *)
Fixpoint toText (value : json) : string + jsError :=
  match value with
  | JNull => inl "null"
  | JBool b => inl (if b then "true" else "false")
  | JNumber text _ => inl text
  | JString s => inl s
  | JArray items =>
      match (fix texts (items : list json) : list string + jsError :=
               match items with
               | [] => inl []
               | item :: rest =>
                   match (match item with
                          | JNull => inl EmptyString
                          | _ => toText item
                          end) with
                   | inr e => inr e
                   | inl first =>
                       match texts rest with
                       | inr e => inr e
                       | inl others => inl (first :: others)
                       end
                   end
               end) items with
      | inl texts => inl (Js.join "," texts)
      | inr e => inr e
      end
  | JObject fields =>
      match member "toString" fields with
      | Some _ => inr (typeError "toString" (Some value))
      | None => inl "[object Object]"
      end
  end.

(** The texts [items.join(sep)] puts together. *)
Fixpoint itemTexts (items : list json) : list string + jsError :=
  match items with
  | [] => inl []
  | item :: rest =>
      match (match item with
             | JNull => inl EmptyString
             | _ => toText item
             end) with
      | inr e => inr e
      | inl first =>
          match itemTexts rest with
          | inr e => inr e
          | inl others => inl (first :: others)
          end
      end
  end.

(** [notification.key]: reading a property of [null] throws. *)
Definition read (notification : json) (key : string) : M (option json) :=
  match notification with
  | JNull => throw (typeError ("notification." ++ key) (Some JNull))
  | _ => ret (property key notification)
  end.

(** [`${value}`]. *)
Definition interpolate (value : option json) : M string :=
  match value with
  | None => ret "undefined"
  | Some v => settle (toText v)
  end.

(** [`${value || fallback}`]. *)
Definition orElse (fallback : string) (value : option json) : M string :=
  if truthy value then interpolate value else ret fallback.

(** [`${new Date(time * 1000).toLocaleString()}`]: an array or an
    object is converted to a number through its text, and the
    multiplication throws when that conversion does. *)
Definition timeText (time : option json) : M string :=
  interpolate time ;;
  ret (toLocaleString time).

(** [`${tags?.join(", ") || "none"}`]: [join] is called on every value
    but [undefined] and [null], and only an array has it. *)
Definition tagsText (tags : option json) : M string :=
  match tags with
  | None | Some JNull => ret "none"
  | Some (JArray items) =>
      texts <- settle (itemTexts items) ;;
      match Js.join ", " texts with
      | EmptyString => ret "none"
      | joined => ret joined
      end
  | Some _ => throw (typeError "notification.tags?.join" tags)
  end.

(** The receiver of [message?.toLowerCase()]: only a string has the
    method. *)
Definition messageArgument (message : option json) : M (option string) :=
  match message with
  | None | Some JNull => ret None
  | Some (JString s) => ret (Some s)
  | Some _ => throw (typeError "message?.toLowerCase" message)
  end.

(** The receivers of [t.toLowerCase()] in the [map] over the tags. *)
Fixpoint tagStrings (items : list json) : M (list string) :=
  match items with
  | [] => ret []
  | JString t :: rest =>
      others <- tagStrings rest ;;
      ret (t :: others)
  | item :: _ => throw (typeError "t.toLowerCase" (Some item))
  end.

(** The receiver of [(tags || []).map(...)]: only an array has [map]. *)
Definition tagsArgument (tags : option json) : M (option (list string)) :=
  match tags with
  | Some (JArray items) =>
      strings <- tagStrings items ;;
      ret (Some strings)
  | _ =>
      if truthy tags then throw (typeError "(tags || []).map" tags)
      else ret None
  end.

(** The call [parseChessCommand(message, tags)] of lib/commands.js on
    values as they were parsed: the message is lower-cased before the
    tags are. *)
Definition parseChessCommandOn (message tags : option json) : M (option bool) :=
  message <- messageArgument message ;;
  tags <- tagsArgument tags ;;
  ret (Commands.parseChessCommand message tags).

(** The line printed when the subscriber goes back to waiting. *)
Definition waitingLine : Runtime.event :=
  ConsoleLog [Text newline; CLIPBOARD;
              Text (" Waiting for next notification..." ++ newline)].

(** What [handleNotification] does once the command is parsed. *)
Definition runCommand (shouldBlock : option bool) : M unit :=
  match shouldBlock with
  | None =>
      emit (ConsoleLog
              [Glyph WARNING;
               Text "  Message not recognized as a chess command"]) ;;
      emit (ConsoleLog [CLIPBOARD;
                        Text (" Waiting for next notification..."
                              ++ newline)])
  | Some shouldBlock =>
      emit (ConsoleLog
              [Text newline; Glyph TARGET;
               Text (" Executing: "
                     ++ (if shouldBlock then "BLOCK" else "ALLOW")
                     ++ " chess sites" ++ newline)]) ;;
      tryCatch
        (SuspendChess.suspendChess env (Some shouldBlock) ;;
         emit (ConsoleLog
                 [Glyph SUCCESS; Text " Command completed successfully!"]))
        (fun error =>
           emit (ConsoleError
                   [Glyph ERROR; Text " Command failed:"; Text " ";
                    Text (Runtime.message error)])) ;;
      emit waitingLine
  end.

(** [handleNotification(notification)]. *)
Definition handleNotification (notification : json) : M unit :=
  event <- read notification "event" ;;
  if isKeepalive event then ret tt
  else
    emit (ConsoleLog [Text newline; Glyph ENVELOPE;
                      Text " Received notification:"]) ;;
    id <- read notification "id" ;;
    id <- interpolate id ;;
    emit (ConsoleLog [Text ("  ID: " ++ id)]) ;;
    time <- read notification "time" ;;
    time <- timeText time ;;
    emit (ConsoleLog [Text ("  Time: " ++ time)]) ;;
    title <- read notification "title" ;;
    title <- orElse "N/A" title ;;
    emit (ConsoleLog [Text ("  Title: " ++ title)]) ;;
    message <- read notification "message" ;;
    message <- interpolate message ;;
    emit (ConsoleLog [Text ("  Message: " ++ message)]) ;;
    priority <- read notification "priority" ;;
    priority <- orElse "default" priority ;;
    emit (ConsoleLog [Text ("  Priority: " ++ priority)]) ;;
    tags <- read notification "tags" ;;
    tags <- tagsText tags ;;
    emit (ConsoleLog [Text ("  Tags: " ++ tags)]) ;;
    message <- read notification "message" ;;
    tags <- read notification "tags" ;;
    shouldBlock <- parseChessCommandOn message tags ;;
    runCommand shouldBlock.

(** The body of the loop over the complete lines: a line that is not
    blank is parsed and handled; an error of either step is logged. *)
Definition processLine (line : string) : M unit :=
  match Js.trim line with
  | EmptyString => ret tt
  | _ =>
      tryCatch
        (notification <- settle (jsonParse line) ;;
         handleNotification notification)
        (fun error =>
           emit (ConsoleError
                   [Glyph ERROR; Text " Error parsing notification:"; Text " ";
                    Text (Runtime.message error)]))
  end.

(** [for (const line of lines) ...]. *)
Fixpoint processLines (lines : list string) : M unit :=
  match lines with
  | [] => ret tt
  | line :: rest => processLine line ;; processLines rest
  end.

(** One round of the read loop for a decoded chunk: the chunk is added
    to the buffer, the complete lines are handled, and the unfinished
    last line is the new buffer. *)
Definition processChunk (buffer chunk : string) : M string :=
  let buffer := buffer ++ chunk in
  let '(lines, buffer) := popLast (splitLines buffer) in
  processLines lines ;;
  ret buffer.

(** The read loop over the chunks of one connection, until the stream
    is done. *)
Fixpoint readLoop (chunks : list string) (buffer : string) : M string :=
  match chunks with
  | [] => ret buffer
  | chunk :: rest =>
      buffer <- processChunk buffer chunk ;;
      readLoop rest buffer
  end.

End WithEnv.
End NtfySubscriber.

(** ** Further sample worlds *)

Module MoreSample.
Import Runtime.

(** A host that cannot be reached: the connection times out. *)
Definition offlineEnv : Env :=
  {| cwd := "/home/user/chess";
     pathJoin := fun a b => a ++ "/" ++ b;
     readFileSync := fun _ _ => inl "127.0.0.1 lichess.org";
     answer := fun _ => "secret";
     connect := fun _ => ConnectTimeout;
     exec := fun _ _ => Closed 0 EmptyString |}.

(** A machine without the local hosts files. *)
Definition unreadableEnv : Env :=
  {| cwd := "/home/user/chess";
     pathJoin := fun a b => a ++ "/" ++ b;
     readFileSync := fun _ _ => inr (Error "ENOENT");
     answer := fun _ => "secret";
     connect := fun _ => Ready;
     exec := fun _ _ => Closed 0 EmptyString |}.

(** A keep-alive line of the subscription stream. *)
Definition keepalive : NtfySubscriber.json :=
  NtfySubscriber.JObject
    [("id", NtfySubscriber.JString "k7");
     ("time", NtfySubscriber.JNumber "1700000000" false);
     ("event", NtfySubscriber.JString "keepalive");
     ("topic", NtfySubscriber.JString "chess-control")].

(** A notification whose tags are a text, not a list. *)
Definition mistagged : NtfySubscriber.json :=
  NtfySubscriber.JObject
    [("id", NtfySubscriber.JString "m1");
     ("event", NtfySubscriber.JString "message");
     ("message", NtfySubscriber.JString "block");
     ("tags", NtfySubscriber.JString "block")].

(** A [TypeError] with a fixed message. *)
Definition plainTypeError (expression : string)
    (value : option NtfySubscriber.json) : jsError :=
  Error (expression ++ " is not a function").

End MoreSample.

(** ** Further vocabulary *)

Module MoreProps.
Import Runtime.

(** The number of single quotes of a text. *)
Fixpoint countQuotes (s : string) : nat :=
  match s with
  | EmptyString => 0
  | String a rest =>
      (if Ascii.eqb a Js.quote then 1 else 0) + countQuotes rest
  end.

(** The progress lines of a countdown started at [elapsed]: one for
    each of the next [n] ticks, two seconds apart. *)
Definition progressEvents (elapsed total : Z) (emoji : glyph) (n : nat)
    : list event :=
  map (fun k => TimerProgress (elapsed + 2 * Z.of_nat k)%Z total emoji)
      (seq 1 n).

(** What [clearLine] writes. *)
Definition clearLineEvent : event :=
  StdoutWrite [Text (String (ascii_of_nat 13) (String (ascii_of_nat 27) "[K"))].

(** The line that ends a countdown. *)
Definition timerCompletedLine (action : string) : event :=
  ConsoleLog [Glyph CLOCK;
              Text (" Timer completed! Proceeding to " ++ action
                    ++ " chess sites..." ++ String (ascii_of_nat 10) EmptyString)].

(** The responses among some events. *)
Definition responsesOf (evs : list event) : list (nat * list (string * string)) :=
  flat_map (fun ev => match ev with
                      | ResJson s b => [(s, b)]
                      | _ => []
                      end) evs.

(** The line [logError] prints for a message. *)
Definition errorLine (msg : string) : event :=
  ConsoleError [Glyph ERROR; Text (" " ++ msg)].

(** The line [log] prints for a glyph and a message. *)
Definition logLine (g : glyph) (msg : string) : event :=
  ConsoleLog [Glyph g; Text (" " ++ msg)].

(** The first line of [establishSSHConnection]. *)
Definition attemptLine (w : world) : event :=
  logLine CONNECTION
    ("Attempting SSH connection to " ++ username (SSH_CONFIG w) ++ "@"
     ++ host (SSH_CONFIG w) ++ "...").

(** The password prompt of [establishSSHConnection]. *)
Definition passwordPrompt (w : world) : event :=
  Question [Glyph LOCK;
            Text (" Enter password for " ++ username (SSH_CONFIG w) ++ "@"
                  ++ host (SSH_CONFIG w) ++ ": ")].

(** The two lines [readLocalHostsFile] prints before it reads. *)
Definition readingLines (env : Env) (isBlocking : bool) : list event :=
  [logLine FILE ("Using hosts file: "
                 ++ (if isBlocking then SuspendChess.HOSTS_FILE_NAMES_BLOCKED
                     else SuspendChess.HOSTS_FILE_NAMES_ALLOWED));
   logLine FOLDER ("Local path: " ++ Props.hostsPath env isBlocking)].

(** What a run of [suspendChess] in mode [mode] prints before it
    connects: the banner, the mode, the countdown of the configured
    [TIMER_CONFIG], and the target. *)
Definition preRunLines (mode : bool) (w : world) : list event :=
  [logLine ROCKET "Starting chess suspension script...";
   (if mode
    then logLine BLOCK "Mode: BLOCKING chess sites (lichess.org will be blocked)"
    else logLine SUCCESS
           "Mode: ALLOWING chess sites (lichess.org will be accessible)");
   logLine TIMER ("Timer configured for 0 minutes"
                  ++ String (ascii_of_nat 10) EmptyString);
   logLine TIMER ("Timer started: Waiting 0 minutes before "
                  ++ (if mode then "blocking" else "unblocking")
                  ++ " chess sites");
   logLine CHART ("Display updates every 2 seconds"
                  ++ String (ascii_of_nat 10) EmptyString);
   clearLineEvent;
   timerCompletedLine (if mode then "blocking" else "unblocking");
   logLine CONNECTION ("Connecting to " ++ username (SSH_CONFIG w) ++ "@"
                       ++ host (SSH_CONFIG w) ++ "...")].

(** The command line [args] asks for the mode [b], given the
    configured default [flag]. *)
Definition requested (args : list string) (flag b : bool) : Prop :=
  (args = [] /\ b = flag) \/
  (exists arg, args = [arg] /\
               Js.toLowerCase arg = if b then "block" else "allow").

(** The five lines of a usage error. *)
Definition usageLines (msg : string) : list event :=
  [errorLine msg;
   errorLine "Usage: node suspend-chess.js [block|allow]";
   ConsoleError [Text "  block - Block chess sites"];
   ConsoleError [Text "  allow - Allow chess sites"];
   ConsoleError [Text "  (no argument) - Use default from config"]].

(** What [establishSSHConnection] does once the password is known. *)
Definition connectWith (env : Env) (w1 : world) : outcome unit * world :=
  let attempt :=
    SshConnect (host (SSH_CONFIG w1)) (username (SSH_CONFIG w1))
      (password (SSH_CONFIG w1)) in
  match connect env (trace w1) with
  | Ready =>
      (Returned tt,
       record [attempt; logLine SUCCESS "SSH connection established"] w1)
  | ConnectError err =>
      (Thrown err,
       record [attempt; errorLine ("SSH connection error: " ++ message err)] w1)
  | ConnectTimeout =>
      (Thrown (Error "SSH connection timeout"),
       record [attempt; errorLine "SSH connection timed out"] w1)
  end.

(** [steady m]: from every state [m] returns (it neither throws nor
    stays pending), leaves the default-mode flag as it was, and only
    adds events to the trace. *)
Definition steady {A} (m : M A) : Prop :=
  forall w, exists a w',
    m w = (Returned a, w') /\
    suspendChess (SSH_CONFIG w') = suspendChess (SSH_CONFIG w) /\
    exists evs, trace w' = (trace w ++ evs)%list.

(** [orderly m]: from every state [m] returns or throws, leaves the
    default-mode flag as it was, and only adds events to the trace. *)
Definition orderly {A} (m : M A) : Prop :=
  forall w,
    fst (m w) <> Pending /\
    suspendChess (SSH_CONFIG (snd (m w))) = suspendChess (SSH_CONFIG w) /\
    exists evs, trace (snd (m w)) = (trace w ++ evs)%list.

(** [effectFree m]: [m] returns or throws and leaves the state as it
    was. *)
Definition effectFree {A} (m : M A) : Prop :=
  forall w, snd (m w) = w /\ fst (m w) <> Pending.

(** [printsOnly m]: [m] returns or throws, and all it does is print on
    the console. *)
Definition printsOnly {A} (m : M A) : Prop :=
  forall w,
    fst (m w) <> Pending /\
    exists evs,
      snd (m w) = record evs w /\
      Forall (fun ev => Props.isConsole ev = true) evs.

(** [failsEarly m]: when [m] throws, all it has done is print on the
    console. *)
Definition failsEarly {A} (m : M A) : Prop :=
  forall w e w',
    m w = (Thrown e, w') ->
    exists evs,
      w' = record evs w /\
      Forall (fun ev => Props.isConsole ev = true) evs.

(** Two tag lists with the same members. *)
Definition sameTags (tags1 tags2 : list string) : Prop :=
  forall t, In t tags1 <-> In t tags2.

End MoreProps.

(** * Properties *)

Import Runtime Props.

(** ** Strings *)

Section StringFacts.

Lemma append_empty_r (s : string) : s ++ EmptyString = s.
Proof. induction s as [|a s IH]; simpl; [reflexivity | now rewrite IH]. Qed.

Lemma append_assoc (a b c : string) : (a ++ b) ++ c = a ++ (b ++ c).
Proof. induction a as [|x a IH]; simpl; [reflexivity | now rewrite IH]. Qed.

Lemma prefix_refl_app (s t : string) : String.prefix s (s ++ t) = true.
Proof.
  induction s as [|a s IH]; simpl.
  - now destruct t.
  - destruct (ascii_dec a a) as [_|ne]; [exact IH | now elim ne].
Qed.


Lemma includes_tail (a : ascii) (hay needle : string) :
  Js.includes hay needle = true -> Js.includes (String a hay) needle = true.
Proof.
  intros H. change (Js.includes (String a hay) needle)
    with (String.prefix needle (String a hay) || Js.includes hay needle).
  rewrite H. apply orb_true_r.
Qed.

Lemma includes_prefix (hay needle : string) :
  String.prefix needle hay = true -> Js.includes hay needle = true.
Proof.
  intros H. destruct hay; simpl in *; rewrite H; reflexivity.
Qed.

Lemma concat_empty_cons (x : string) (l : list string) :
  String.concat EmptyString (x :: l) = x ++ String.concat EmptyString l.
Proof.
  destruct l; cbn [String.concat]; [now rewrite append_empty_r | reflexivity].
Qed.

Lemma replaceAllChar_app (c : ascii) (r s t : string) :
  Js.replaceAllChar c r (s ++ t)
  = Js.replaceAllChar c r s ++ Js.replaceAllChar c r t.
Proof.
  induction s as [|a s IH]; simpl; [reflexivity|].
  destruct (Ascii.eqb a c); rewrite IH; [|reflexivity].
  now rewrite append_assoc.
Qed.

End StringFacts.

(** ** The command builders of lib/ssh.js *)

Section Builders.

Lemma escapeForShell_app (s t : string) :
  Ssh.escapeForShell (s ++ t) = Ssh.escapeForShell s ++ Ssh.escapeForShell t.
Proof. apply replaceAllChar_app. Qed.

Lemma escapeForShell_spec (s : string) : Ssh.escapeForShell s = specEscape s.
Proof.
  unfold Ssh.escapeForShell, specEscape.
  induction s as [|a s IH]; [reflexivity|].
  cbn [Js.replaceAllChar list_ascii_of_string map].
  rewrite concat_empty_cons, IH. unfold quoteImage.
  now destruct (Ascii.eqb a Js.quote).
Qed.

(** Inside single quotes the shell reads an escaped text back as the
    text, and goes on with what follows in the same quoted state. *)
Lemma wordValue_escaped (s rest : string) :
  Shell.wordValue Shell.InSingle (Ssh.escapeForShell s ++ rest)
  = option_map (append s) (Shell.wordValue Shell.InSingle rest).
Proof.
  unfold Ssh.escapeForShell.
  induction s as [|a s IH].
  - simpl. now destruct (Shell.wordValue Shell.InSingle rest).
  - cbn [Js.replaceAllChar].
    destruct (Ascii.eqb a Js.quote) eqn:Ha.
    + apply Ascii.eqb_eq in Ha. subst a.
      change (("'\''" ++ Js.replaceAllChar Js.quote "'\''" s) ++ rest)
        with ("'\''" ++ (Js.replaceAllChar Js.quote "'\''" s ++ rest)).
      cbn. rewrite IH.
      now destruct (Shell.wordValue Shell.InSingle rest).
    + cbn [append Shell.wordValue]. rewrite Ha, IH.
      now destruct (Shell.wordValue Shell.InSingle rest).
Qed.

Lemma singleQuoted_escaped_value (s : string) :
  Shell.wordValue Shell.Unquoted (Shell.singleQuoted (Ssh.escapeForShell s))
  = Some s.
Proof.
  unfold Shell.singleQuoted.
  change (Shell.wordValue Shell.Unquoted ("'" ++ Ssh.escapeForShell s ++ "'"))
    with (Shell.wordValue Shell.InSingle (Ssh.escapeForShell s ++ "'")).
  rewrite wordValue_escaped. cbn. now rewrite append_empty_r.
Qed.

(** C1: for every string [s], [escapeForShell s] is [s] with every
    single quote replaced by the four characters quote, backslash,
    quote, quote, and the result placed between single quotes is read
    by the shell as one word whose value is exactly [s]: the quoted
    stretch is never left before the closing quote except to insert an
    escaped quote. *)
Theorem escapeForShell_single_quoted (s : string) :
  Ssh.escapeForShell s = specEscape s /\
  String.length "'\''" = 4 /\
  Shell.wordValue Shell.Unquoted (Shell.singleQuoted (Ssh.escapeForShell s))
  = Some s.
Proof.
  split; [apply escapeForShell_spec|]. split; [reflexivity|].
  apply singleQuoted_escaped_value.
Qed.

Example escapeForShell_two_quotes :
  Ssh.escapeForShell "it's John's" = "it'\''s John'\''s" /\
  Shell.wordValue Shell.Unquoted (Shell.singleQuoted "it's John's") = None.
Proof. split; reflexivity. Qed.



(** C8: for every secret and inner command the privileged command is
    [echo '<secret>' | sudo -S bash -c '<command>'], the secret and
    the command each escaped by [escapeForShell] on its own: each of
    the two quoted words is read back by the shell as the secret and
    as the command. *)
Theorem buildSudoCommand_escapes_both (password command : string) :
  Ssh.buildSudoCommand password command
  = "echo '" ++ Ssh.escapeForShell password
    ++ "' | sudo -S bash -c '" ++ Ssh.escapeForShell command ++ "'" /\
  Ssh.buildSudoCommand password command
  = "echo " ++ Shell.singleQuoted (Ssh.escapeForShell password)
    ++ " | sudo -S bash -c " ++ Shell.singleQuoted (Ssh.escapeForShell command) /\
  Shell.wordValue Shell.Unquoted
    (Shell.singleQuoted (Ssh.escapeForShell password)) = Some password /\
  Shell.wordValue Shell.Unquoted
    (Shell.singleQuoted (Ssh.escapeForShell command)) = Some command.
Proof.
  split; [reflexivity|]. split; [|split; apply singleQuoted_escaped_value].
  unfold Ssh.buildSudoCommand, Shell.singleQuoted.
  fold (Ssh.escapeForShell command).
  cbn [append]. now rewrite !append_assoc.
Qed.

Example buildSudoCommand_quoted_password :
  Ssh.buildSudoCommand "pass'word" "echo 'hello'"
  = "echo 'pass'\''word' | sudo -S bash -c 'echo '\''hello'\'''".
Proof. reflexivity. Qed.

Example buildHostsUploadCommand_empty :
  Ssh.buildHostsUploadCommand "/etc/hosts" "/etc/hosts.backup" EmptyString
  = "cp /etc/hosts /etc/hosts.backup && printf '%s\n' '' > /etc/hosts".
Proof. reflexivity. Qed.

End Builders.

(** ** The intent parser of lib/commands.js *)

Section Parser.

Lemma unblock_includes_block (hay : string) :
  Js.includes hay "unblock" = true -> Js.includes hay "block" = true.
Proof.
  induction hay as [|a hay IH]; [discriminate|].
  change (Js.includes (String a hay) "unblock")
    with (String.prefix "unblock" (String a hay) || Js.includes hay "unblock").
  intros H. apply orb_true_iff in H. destruct H as [H|H].
  - apply String.prefix_correct in H. cbn [String.length] in H.
    assert (E : exists rest, String a hay = "unblock" ++ rest).
    { clear IH. remember (String a hay) as t eqn:Et. clear Et.
      do 7 (destruct t as [|? t]; [discriminate|]).
      cbn in H. injection H as -> -> -> -> -> -> -> _.
      now exists t. }
    destruct E as [rest ->].
    do 2 apply includes_tail. apply includes_prefix.
    apply (prefix_refl_app "block" rest).
  - apply includes_tail. now apply IH.
Qed.

(** C5: tags take precedence over the message text: whatever the
    message, a lower-cased tag list containing [block] or [suspend]
    gives Block, and one containing [allow] or [unblock] but neither
    of the former gives Allow; so [allow the sites] tagged [block] is
    Block and [block the sites] tagged [allow] is Allow. *)
Theorem tags_take_precedence :
  (forall message tags,
      Js.arrayIncludes (Commands.tagsList tags) "block" = true \/
      Js.arrayIncludes (Commands.tagsList tags) "suspend" = true ->
      Commands.parseChessCommand message tags = Commands.Block) /\
  (forall message tags,
      Js.arrayIncludes (Commands.tagsList tags) "block" = false ->
      Js.arrayIncludes (Commands.tagsList tags) "suspend" = false ->
      Js.arrayIncludes (Commands.tagsList tags) "allow" = true \/
      Js.arrayIncludes (Commands.tagsList tags) "unblock" = true ->
      Commands.parseChessCommand message tags = Commands.Allow) /\
  Commands.parseChessCommand (Some "allow the sites") (Some ["block"])
  = Commands.Block /\
  Commands.parseChessCommand (Some "block the sites") (Some ["allow"])
  = Commands.Allow.
Proof.
  split; [|split; [|split; reflexivity]].
  - intros message tags H. unfold Commands.parseChessCommand.
    apply orb_true_iff in H. now rewrite H.
  - intros message tags Hb Hs H. unfold Commands.parseChessCommand.
    apply orb_true_iff in H. now rewrite Hb, Hs, H.
Qed.

Lemma tags_take_precedence_witness :
  Commands.parseChessCommand (Some "please allow chess") (Some ["SUSPEND"])
  = Commands.Block /\
  Commands.parseChessCommand (Some "block chess") (Some ["work"; "UnBlock"])
  = Commands.Allow.
Proof.
  split.
  - apply (proj1 tags_take_precedence). right. reflexivity.
  - apply (proj1 (proj2 tags_take_precedence));
      [reflexivity | reflexivity | right; reflexivity].
Defined.

(** C6: the Block substrings are tried before the Allow ones, so a
    message without tags whose lower-cased text contains [block] gives
    Block; a text containing [unblock] contains [block], and
    [Unblock chess websites] without tags is Block. *)
Theorem block_substring_checked_first :
  (forall message tags,
      tags = None \/ tags = Some [] ->
      Js.includes (Js.toLowerCase message) "block" = true ->
      Commands.parseChessCommand (Some message) tags = Commands.Block) /\
  (forall message tags,
      tags = None \/ tags = Some [] ->
      Js.includes (Js.toLowerCase message) "unblock" = true ->
      Commands.parseChessCommand (Some message) tags = Commands.Block) /\
  Commands.parseChessCommand (Some "Unblock chess websites") (Some [])
  = Commands.Block.
Proof.
  assert (G : forall message tags,
             tags = None \/ tags = Some [] ->
             Js.includes (Js.toLowerCase message) "block" = true ->
             Commands.parseChessCommand (Some message) tags = Commands.Block).
  { intros message tags [-> | ->] H; unfold Commands.parseChessCommand;
      cbn [Commands.tagsList map Js.arrayIncludes existsb orb
           Commands.messageLower]; now rewrite H. }
  split; [exact G|]. split; [|reflexivity].
  intros message tags Ht H. apply G; [exact Ht|].
  now apply unblock_includes_block.
Qed.

Lemma block_substring_checked_first_witness :
  Commands.parseChessCommand (Some "Sites are BLOCKED") None = Commands.Block /\
  Commands.parseChessCommand (Some "please UNBLOCK lichess") (Some [])
  = Commands.Block.
Proof.
  split.
  - apply (proj1 block_substring_checked_first);
      [left; reflexivity | reflexivity].
  - apply (proj1 (proj2 block_substring_checked_first));
      [right; reflexivity | reflexivity].
Defined.

End Parser.

(** ** The run-time model *)

Section RuntimeFacts.

Lemma record_record (e1 e2 : list event) (w : world) :
  record e2 (record e1 w) = record (e1 ++ e2) w.
Proof. unfold record; cbn. now rewrite app_assoc. Qed.

Lemma record_nil (w : world) : record [] w = w.
Proof. destruct w; unfold record; cbn. now rewrite app_nil_r. Qed.

Lemma commandsOf_app (e1 e2 : list event) :
  commandsOf (e1 ++ e2) = (commandsOf e1 ++ commandsOf e2)%list.
Proof. apply flat_map_app. Qed.

Lemma filesRead_app (e1 e2 : list event) :
  filesRead (e1 ++ e2) = (filesRead e1 ++ filesRead e2)%list.
Proof. apply flat_map_app. Qed.

Context {A B : Type} (b : bool) (P : event -> Prop).

Lemma quiet_ret (a : A) : quiet b P (ret a).
Proof.
  intros w Hw; cbn. repeat split; try discriminate; try assumption.
  exists []. now rewrite app_nil_r.
Qed.

Lemma quiet_throw (e : jsError) : quiet b P (@throw A e).
Proof.
  intros w Hw; cbn. repeat split; try discriminate; try assumption.
  exists []. now rewrite app_nil_r.
Qed.

Lemma quiet_bind (m : M A) (k : A -> M B) :
  quiet b P m -> (forall a, quiet b P (k a)) -> quiet b P (bind m k).
Proof.
  intros Hm Hk w Hw. unfold bind.
  destruct (Hm w Hw) as (Hs & Hf & Hh & evs & Ht & Hc).
  destruct (m w) as [[a|e|] w1]; cbn in *.
  - destruct (Hk a w1 Hf) as (Hs' & Hf' & Hh' & evs' & Ht' & Hc').
    repeat split; try congruence.
    exists (evs ++ evs')%list. rewrite Ht', Ht, app_assoc. split; [reflexivity|].
    now apply Forall_app.
  - repeat split; try congruence. now exists evs.
  - now elim Hs.
Qed.

(** Reading the state first: the continuation may rely on the flag. *)
Lemma quiet_bind_get (k : world -> M B) :
  (forall w0, suspendChess (SSH_CONFIG w0) = b -> quiet b P (k w0)) ->
  quiet b P (bind get k).
Proof. intros Hk w Hw. unfold bind, get. now apply Hk. Qed.

Lemma quiet_tryCatch (body : M A) (handler : jsError -> M A) :
  quiet b P body -> (forall e, quiet b P (handler e)) ->
  quiet b P (tryCatch body handler).
Proof.
  intros Hm Hk w Hw. unfold tryCatch.
  destruct (Hm w Hw) as (Hs & Hf & Hh & evs & Ht & Hc).
  destruct (body w) as [[a|e|] w1]; cbn in *.
  - repeat split; try congruence. now exists evs.
  - destruct (Hk e w1 Hf) as (Hs' & Hf' & Hh' & evs' & Ht' & Hc').
    repeat split; try congruence.
    exists (evs ++ evs')%list. rewrite Ht', Ht, app_assoc. split; [reflexivity|].
    now apply Forall_app.
  - now elim Hs.
Qed.

Lemma quiet_tryFinally (body : M A) (final : M unit) :
  quiet b P body -> quiet b P final -> quiet b P (tryFinally body final).
Proof.
  intros Hm Hk w Hw. unfold tryFinally.
  destruct (Hm w Hw) as (Hs & Hf & Hh & evs & Ht & Hc).
  destruct (body w) as [[a|e|] w1]; cbn in *; [| |now elim Hs];
    destruct (Hk w1 Hf) as (Hs' & Hf' & Hh' & evs' & Ht' & Hc');
    destruct (final w1) as [[u|e'|] w2]; cbn in *;
    try (now elim Hs');
    (repeat split; try congruence;
     exists (evs ++ evs')%list; rewrite Ht', Ht, app_assoc;
     split; [reflexivity | now apply Forall_app]).
Qed.

Lemma quiet_emit (ev : event) : P ev -> quiet b P (emit ev).
Proof.
  intros H w Hw; cbn. repeat split; try discriminate; try assumption.
  exists [ev]. split; [reflexivity|]. now constructor.
Qed.

Lemma quiet_setPassword (p : string) : quiet b P (modify (setPassword p)).
Proof.
  intros w Hw; cbn. repeat split; try discriminate; try assumption.
  exists []. now rewrite app_nil_r.
Qed.

End RuntimeFacts.

Create HintDb quiet.

#[local] Hint Resolve quiet_ret quiet_throw quiet_setPassword : quiet.

(** ** The orchestrator: which effects each function may have *)

Section Effects.
Variable env : Env.
Variable b : bool.
Variable P : event -> Prop.
Hypothesis P_plain : forall ev, plain ev = true -> P ev.
Hypothesis P_read : P (ReadFileSync (hostsPath env b)).

(** One step of the effect analysis: split a sequence or a [try],
    close a leaf, or branch. *)
Ltac quiet_step :=
  match goal with
  | |- quiet _ _ (bind get _) => apply quiet_bind_get; intros ? ?
  | |- quiet _ _ (bind _ _) => apply quiet_bind; [|intro]
  | |- quiet _ _ (tryCatch _ _) => apply quiet_tryCatch; [|intro]
  | |- quiet _ _ (emit _) =>
      apply quiet_emit; first [apply P_plain; reflexivity | exact P_read]
  | |- quiet _ _ (match ?x with _ => _ end) => destruct x
  | |- quiet _ _ _ => solve [auto with quiet]
  end.

Ltac quiet_tac := repeat quiet_step.

Lemma quiet_log (g : glyph) (msg : string) : quiet b P (SuspendChess.log g msg).
Proof. unfold SuspendChess.log. quiet_tac. Qed.

Lemma quiet_logError (msg : string) : quiet b P (SuspendChess.logError msg).
Proof. unfold SuspendChess.logError. quiet_tac. Qed.

Lemma quiet_logSuccess (msg : string) : quiet b P (SuspendChess.logSuccess msg).
Proof. unfold SuspendChess.logSuccess. quiet_tac. Qed.

Lemma quiet_clearLine : quiet b P SuspendChess.clearLine.
Proof. unfold SuspendChess.clearLine. quiet_tac. Qed.

Hint Resolve quiet_log quiet_logError quiet_logSuccess quiet_clearLine : quiet.

Lemma quiet_executeCommand (command : string) :
  quiet b P (SuspendChess.executeCommand env command).
Proof.
  unfold SuspendChess.executeCommand, SuspendChess.executeSSHCommand,
    SuspendChess.logSSHOutput.
  quiet_tac.
Qed.

Lemma quiet_establishSSHConnection :
  quiet b P (SuspendChess.establishSSHConnection env).
Proof.
  unfold SuspendChess.establishSSHConnection, SuspendChess.promptPassword.
  quiet_tac.
Qed.

Lemma quiet_readLocalHostsFile :
  quiet b P (SuspendChess.readLocalHostsFile env b).
Proof.
  unfold SuspendChess.readLocalHostsFile, FileUtils.readLocalHostsFile,
    FileUtils.fsReadFileSync.
  cbn [FileUtils.configDir FileUtils.blockedFileName FileUtils.allowedFileName].
  replace (pathJoin env (pathJoin env (cwd env) "config")
             (if b then SuspendChess.HOSTS_FILE_NAMES_BLOCKED
              else SuspendChess.HOSTS_FILE_NAMES_ALLOWED))
    with (hostsPath env b) by reflexivity.
  quiet_tac.
Qed.

Hint Resolve quiet_executeCommand quiet_establishSSHConnection
  quiet_readLocalHostsFile : quiet.

Lemma quiet_connectAndRead : quiet b P (SuspendChess.connectAndRead env).
Proof.
  unfold SuspendChess.connectAndRead.
  apply quiet_bind; [auto with quiet | intros _].
  apply quiet_bind_get. intros w0 ->. auto with quiet.
Qed.

Lemma quiet_uploadHostsFile (hostsContent : string) :
  quiet b P (SuspendChess.uploadHostsFile env hostsContent).
Proof. unfold SuspendChess.uploadHostsFile. quiet_tac. Qed.

Lemma quiet_killBrowserProcess (browserName : string) :
  quiet b P (SuspendChess.killBrowserProcess env browserName).
Proof. unfold SuspendChess.killBrowserProcess. quiet_tac. Qed.

Hint Resolve quiet_connectAndRead quiet_uploadHostsFile
  quiet_killBrowserProcess : quiet.

Lemma quiet_killBrowsers (browsers : list string) :
  quiet b P (SuspendChess.killBrowsers env browsers).
Proof.
  induction browsers as [|browser rest IH]; cbn [SuspendChess.killBrowsers].
  - auto with quiet.
  - apply quiet_bind; [auto with quiet | intros _; exact IH].
Qed.

Lemma quiet_killAllBrowsers : quiet b P (SuspendChess.killAllBrowsers env).
Proof. apply quiet_killBrowsers. Qed.

Hint Resolve quiet_killAllBrowsers : quiet.

(** The [try] block of [executeRemoteCommands]. *)
Lemma quiet_remoteSteps :
  quiet b P
    (bind (SuspendChess.connectAndRead env) (fun hostsContent =>
     bind (SuspendChess.uploadHostsFile env hostsContent) (fun _ =>
     bind (SuspendChess.killAllBrowsers env) (fun _ =>
     SuspendChess.log PARTY "All commands executed successfully!")))).
Proof. quiet_tac. Qed.

(** With the configured [TIMER_CONFIG] the countdown is over at its
    first tick. *)
Lemma startTimer_first_tick (isBlocking : bool) :
  SuspendChess.startTimer isBlocking
  = bind (SuspendChess.log TIMER
            ("Timer started: Waiting 0 minutes before "
             ++ fst (SuspendChess.getTimerAction isBlocking) ++ " chess sites"))
      (fun _ =>
       bind (SuspendChess.log CHART
               ("Display updates every 2 seconds"
                ++ String (ascii_of_nat 10) EmptyString))
         (fun _ =>
          bind SuspendChess.clearLine
            (fun _ =>
             SuspendChess.log CLOCK
               ("Timer completed! Proceeding to "
                ++ fst (SuspendChess.getTimerAction isBlocking)
                ++ " chess sites..." ++ String (ascii_of_nat 10) EmptyString)))).
Proof. destruct isBlocking; reflexivity. Qed.

Lemma quiet_startTimer (isBlocking : bool) :
  quiet b P (SuspendChess.startTimer isBlocking).
Proof. rewrite startTimer_first_tick. quiet_tac. Qed.

Lemma quiet_logScriptMode (isBlocking : bool) :
  quiet b P (SuspendChess.logScriptMode isBlocking).
Proof. unfold SuspendChess.logScriptMode. quiet_tac. Qed.

Hint Resolve quiet_startTimer quiet_logScriptMode : quiet.

Hypothesis P_end : P SshEnd.

Lemma quiet_executeRemoteCommands :
  quiet b P (SuspendChess.executeRemoteCommands env).
Proof.
  unfold SuspendChess.executeRemoteCommands.
  apply quiet_tryFinally; [apply quiet_remoteSteps | now apply quiet_emit].
Qed.

Hint Resolve quiet_executeRemoteCommands : quiet.

Lemma quiet_suspendChessBody : quiet b P (SuspendChess.suspendChessBody env).
Proof. unfold SuspendChess.suspendChessBody. quiet_tac. Qed.

Lemma quiet_suspendChessTry :
  quiet b P
    (tryCatch (SuspendChess.suspendChessBody env)
       (fun error =>
          bind (SuspendChess.logError ("Script failed: " ++ message error))
               (fun _ => throw error))).
Proof.
  apply quiet_tryCatch; [apply quiet_suspendChessBody | intro; quiet_tac].
Qed.

End Effects.

(** ** The orchestrator: what the remote steps do *)

Section RemoteSteps.
Variable env : Env.

Lemma executeCommand_closed (command : string) (w : world)
    (code : Z) (output : string) :
  exec env (trace w) command = Closed code output ->
  SuspendChess.executeCommand env command w
  = (Returned (Some code, output),
     record (SshExec command :: outputLog output) w).
Proof.
  intros H.
  unfold SuspendChess.executeCommand, SuspendChess.executeSSHCommand,
    SuspendChess.logSSHOutput, SuspendChess.log, bind, get, emit, modify.
  rewrite H. cbn [ret snd].
  destruct output; cbn [outputLog]; [reflexivity|].
  now rewrite record_record.
Qed.

Lemma executeCommand_signalled (command : string) (w : world)
    (output : string) :
  exec env (trace w) command = ClosedBySignal output ->
  SuspendChess.executeCommand env command w
  = (Returned (None, output),
     record (SshExec command :: outputLog output) w).
Proof.
  intros H.
  unfold SuspendChess.executeCommand, SuspendChess.executeSSHCommand,
    SuspendChess.logSSHOutput, SuspendChess.log, bind, get, emit, modify.
  rewrite H. cbn [ret snd].
  destruct output; cbn [outputLog]; [reflexivity|].
  now rewrite record_record.
Qed.

Lemma executeCommand_failed (command : string) (w : world) (err : jsError) :
  exec env (trace w) command = Failed err ->
  SuspendChess.executeCommand env command w
  = (Thrown err, record [SshExec command] w).
Proof.
  intros H.
  unfold SuspendChess.executeCommand, SuspendChess.executeSSHCommand,
    bind, get, emit, modify.
  now rewrite H.
Qed.

Lemma killBrowserProcess_closed (browserName : string) (w : world)
    (code : Z) (output : string) :
  exec env (trace w) (killCommand browserName) = Closed code output ->
  SuspendChess.killBrowserProcess env browserName w
  = (Returned tt,
     record (SshExec (killCommand browserName)
               :: outputLog output ++ [killLog browserName code]) w).
Proof.
  intros H. unfold SuspendChess.killBrowserProcess, tryCatch, bind.
  fold (killCommand browserName).
  rewrite (executeCommand_closed _ _ _ _ H). cbn [fst Js.strictEq Js.ofCode].
  unfold killLog, SuspendChess.PKILL_SUCCESS_CODE,
    SuspendChess.PKILL_NO_PROCESSES_CODE.
  destruct (Z.eqb code 0); [|destruct (Z.eqb code 1)];
    unfold SuspendChess.logSuccess, SuspendChess.log, SuspendChess.logError,
      emit, modify;
    rewrite record_record; reflexivity.
Qed.

Lemma killBrowserProcess_signalled (browserName : string) (w : world)
    (output : string) :
  exec env (trace w) (killCommand browserName) = ClosedBySignal output ->
  SuspendChess.killBrowserProcess env browserName w
  = (Returned tt,
     record (SshExec (killCommand browserName)
               :: outputLog output ++ [killSignalLog browserName]) w).
Proof.
  intros H. unfold SuspendChess.killBrowserProcess, tryCatch, bind.
  fold (killCommand browserName).
  rewrite (executeCommand_signalled _ _ _ H). cbn [fst Js.strictEq].
  unfold SuspendChess.logError, emit, modify.
  rewrite record_record. reflexivity.
Qed.

Lemma killBrowserProcess_failed (browserName : string) (w : world)
    (err : jsError) :
  exec env (trace w) (killCommand browserName) = Failed err ->
  SuspendChess.killBrowserProcess env browserName w
  = (Thrown err,
     record [SshExec (killCommand browserName);
             killErrorLog browserName err] w).
Proof.
  intros H. unfold SuspendChess.killBrowserProcess, tryCatch, bind.
  fold (killCommand browserName).
  rewrite (executeCommand_failed _ _ _ H).
  unfold SuspendChess.logError, emit, modify, throw.
  now rewrite record_record.
Qed.

Lemma uploadHostsFile_closed (hostsContent : string) (w : world)
    (code : Z) (output : string) :
  exec env (trace w)
    (SuspendChess.buildCompleteUploadCommand (password (SSH_CONFIG w))
       hostsContent)
  = Closed code output ->
  SuspendChess.uploadHostsFile env hostsContent w
  = if Z.eqb code 0
    then (Returned tt,
          record (SshExec (SuspendChess.buildCompleteUploadCommand
                             (password (SSH_CONFIG w)) hostsContent)
                    :: outputLog output
                    ++ [ConsoleLog [Glyph SUCCESS;
                                    Text " Hosts file updated successfully"]]) w)
    else (Thrown (Error ("Upload failed with exit code " ++ Js.ofInt code)),
          record (SshExec (SuspendChess.buildCompleteUploadCommand
                             (password (SSH_CONFIG w)) hostsContent)
                    :: outputLog output) w).
Proof.
  intros H. unfold SuspendChess.uploadHostsFile, bind, get.
  rewrite (executeCommand_closed _ _ _ _ H). cbn [fst Js.strictEq Js.ofCode].
  destruct (Z.eqb code 0); cbn [negb]; [|reflexivity].
  unfold SuspendChess.logSuccess, emit, modify.
  now rewrite record_record.
Qed.

(** When every kill command closes, the loop runs the command of every
    name, in order, and returns. *)
Lemma killBrowsers_all (browsers : list string) :
  killsClose env browsers ->
  forall w, exists evs,
    SuspendChess.killBrowsers env browsers w = (Returned tt, record evs w) /\
    commandsOf evs = map killCommand browsers.
Proof.
  induction browsers as [|browser rest IH]; intros Hc w.
  - exists []. now rewrite record_nil.
  - destruct (Hc (trace w) browser (or_introl eq_refl)) as (code & output & He).
    cbn [SuspendChess.killBrowsers]. unfold bind.
    rewrite (killBrowserProcess_closed _ _ _ _ He).
    destruct (IH (fun tr b' Hb => Hc tr b' (or_intror Hb))
                 (record (SshExec (killCommand browser)
                            :: outputLog output ++ [killLog browser code]) w))
      as (evs & Hr & Hcmd).
    eexists. rewrite Hr, record_record. split; [reflexivity|].
    rewrite commandsOf_app, Hcmd. cbn [commandsOf flat_map map app].
    rewrite (flat_map_app _ (outputLog output)).
    destruct output; cbn [outputLog flat_map app];
      unfold killLog; destruct (Z.eqb code 0); destruct (Z.eqb code 1);
      reflexivity.
Qed.

End RemoteSteps.

(** ** The orchestrator: upload failure and session release *)

Section Session.
Variable env : Env.

Lemma uploadCommand_is_no_kill (pw hostsContent : string)
    (browsers : list string) :
  SuspendChess.buildCompleteUploadCommand pw hostsContent
  <> Ssh.buildBrowserKillCommand browsers.
Proof. discriminate. Qed.

Lemma executeRemoteCommands_ends_session (w : world) :
  fst (SuspendChess.executeRemoteCommands env w) <> Pending /\
  exists evs,
    trace (snd (SuspendChess.executeRemoteCommands env w))
    = (trace w ++ evs ++ [SshEnd])%list /\
    ~ In SshEnd evs.
Proof.
  assert (Q := quiet_remoteSteps env (suspendChess (SSH_CONFIG w))
                 (fun ev => ev <> SshEnd)).
  destruct (Q (fun ev H E => ltac:(subst ev; discriminate H))
              ltac:(discriminate) w eq_refl)
    as (Hs & _ & _ & evs & Ht & Hc).
  unfold SuspendChess.executeRemoteCommands, tryFinally.
  match goal with
  | _ : fst (?body w) <> Pending |- _ =>
      destruct (body w) as [[u|e|] w1]
  end; cbn in *; try (now elim Hs);
    (split; [discriminate|]; exists evs; rewrite Ht, <- app_assoc;
     split; [reflexivity|];
     intros Hin; rewrite Forall_forall in Hc; now apply (Hc _ Hin)).
Qed.

(** C3: when the privileged upload command exits with a code other
    than zero, the run fails with the error [Upload failed with exit
    code <code>], runs no command after the upload (so no kill
    command), and ends the SSH session; and on every exit path of
    [executeRemoteCommands], success or failure, the session is ended,
    once, as the last effect. *)
Theorem upload_failure_releases_session :
  (forall w hostsContent w1 code output,
      reachesUpload env w hostsContent w1 ->
      exec env (trace w1)
        (SuspendChess.buildCompleteUploadCommand (password (SSH_CONFIG w1))
           hostsContent)
      = Closed code output ->
      code <> 0%Z ->
      let uploadCommand :=
        SuspendChess.buildCompleteUploadCommand (password (SSH_CONFIG w1))
          hostsContent in
      let evs := (SshExec uploadCommand :: outputLog output ++ [SshEnd])%list in
      SuspendChess.executeRemoteCommands env w
      = (Thrown (Error ("Upload failed with exit code " ++ Js.ofInt code)),
         record evs w1) /\
      commandsOf evs = [uploadCommand] /\
      (forall browsers, uploadCommand <> Ssh.buildBrowserKillCommand browsers)) /\
  (forall w,
      fst (SuspendChess.executeRemoteCommands env w) <> Pending /\
      exists evs,
        trace (snd (SuspendChess.executeRemoteCommands env w))
        = (trace w ++ evs ++ [SshEnd])%list /\
        ~ In SshEnd evs).
Proof.
  split; [|apply executeRemoteCommands_ends_session].
  intros w hostsContent w1 code output Hr He Hc uploadCommand evs.
  split; [|split].
  - unfold SuspendChess.executeRemoteCommands, tryFinally, bind.
    unfold reachesUpload in Hr. rewrite Hr.
    rewrite (uploadHostsFile_closed env _ _ _ _ He).
    destruct (Z.eqb_spec code 0) as [E|_]; [now elim Hc|].
    unfold emit, modify. rewrite record_record.
    subst evs uploadCommand. cbn [app]. reflexivity.
  - subst evs. cbn [commandsOf flat_map app].
    rewrite flat_map_app. now destruct output.
  - intros browsers. apply uploadCommand_is_no_kill.
Qed.

End Session.

Lemma upload_failure_releases_session_witness :
  SuspendChess.executeRemoteCommands (Sample.sampleEnv 2 0 []) Sample.sampleWorld
  = (Thrown (Error "Upload failed with exit code 2"),
     record
       [SshExec (SuspendChess.buildCompleteUploadCommand "password"
                   "127.0.0.1 lichess.org");
        SshEnd]
       (snd (SuspendChess.connectAndRead (Sample.sampleEnv 2 0 [])
               Sample.sampleWorld))).
Proof.
  apply (proj1 (proj1 (upload_failure_releases_session
                         (Sample.sampleEnv 2 0 []))
                  Sample.sampleWorld "127.0.0.1 lichess.org"
                  (snd (SuspendChess.connectAndRead (Sample.sampleEnv 2 0 [])
                          Sample.sampleWorld))
                  2%Z EmptyString eq_refl eq_refl ltac:(discriminate))).
Defined.

(** ** The orchestrator: the process-kill phase *)

Section ExitCodeText.

Lemma lastUnit_cons (a : ascii) (s : string) :
  s <> EmptyString -> lastUnit (String a s) = lastUnit s.
Proof. destruct s; [now intros []|reflexivity]. Qed.

Lemma lastUnit_app (s t : string) :
  t <> EmptyString -> lastUnit (s ++ t) = lastUnit t.
Proof.
  intros Ht. induction s as [|a s IH]; [reflexivity|].
  cbn [append]. rewrite lastUnit_cons; [exact IH|].
  destruct s; [exact Ht | discriminate].
Qed.

Lemma lastUnit_uint (d : Decimal.uint) :
  d <> Decimal.Nil ->
  exists a, lastUnit (NilEmpty.string_of_uint d) = Some a /\ isDigit a = true.
Proof.
  induction d as [|d IH|d IH|d IH|d IH|d IH|d IH|d IH|d IH|d IH|d IH];
    intros Hd; [now elim Hd| ..];
    (destruct (Decimal.uint_eq_dec d Decimal.Nil) as [->|Hn];
     [eexists; split; reflexivity|];
     destruct (IH Hn) as (a & Ha & Hg); exists a; split; [|exact Hg];
     cbn [NilEmpty.string_of_uint]; rewrite lastUnit_cons; [exact Ha|];
     intros E; rewrite E in Ha; discriminate Ha).
Qed.

(** The text of an integer ends in a digit. *)
Lemma lastUnit_ofInt (n : Z) :
  exists a, lastUnit (Js.ofInt n) = Some a /\ isDigit a = true.
Proof.
  unfold Js.ofInt. destruct n as [|p|p]; cbn [Z.to_int NilZero.string_of_int].
  - eexists; split; reflexivity.
  - generalize (Unsigned.to_uint_nonnil p). intros Hn.
    unfold NilZero.string_of_uint.
    destruct (Pos.to_uint p) eqn:E; try (now elim Hn);
      rewrite <- E; apply lastUnit_uint; rewrite E; discriminate.
  - generalize (Unsigned.to_uint_nonnil p). intros Hn.
    unfold NilZero.string_of_uint.
    destruct (Pos.to_uint p) eqn:E; try (now elim Hn);
      rewrite <- E;
      (destruct (lastUnit_uint (Pos.to_uint p)) as (a & Ha & Hg);
       [rewrite E; discriminate|]; exists a; split; [|exact Hg];
       rewrite lastUnit_cons; [exact Ha|];
       intros E'; rewrite E' in Ha; discriminate Ha).
Qed.

Lemma failed_line_last (name text : string) :
  text <> EmptyString ->
  lastUnit (" Failed to kill " ++ name ++ ", exit code: " ++ text)
  = lastUnit text.
Proof.
  intros Ht. rewrite !lastUnit_app; [reflexivity | exact Ht | discriminate |].
  destruct name; discriminate.
Qed.

(** The failure line for a missing exit code is not the failure line
    of any exit code. *)
Lemma killSignalLog_no_code (browserName name : string) (code : Z) :
  killSignalLog browserName <> killFailedLog name code.
Proof.
  unfold killSignalLog, killFailedLog. intros H.
  apply (f_equal (fun ev => match ev with
                            | ConsoleError [_; Text text] => lastUnit text
                            | _ => None
                            end)) in H.
  destruct (lastUnit_ofInt code) as (a & Ha & Hg).
  rewrite !failed_line_last in H.
  - rewrite Ha in H. cbn in H. injection H as <-. discriminate Hg.
  - intros E. rewrite E in Ha. discriminate Ha.
  - discriminate.
Qed.

End ExitCodeText.

Section KillCommandLine.

Lemma tokens_quoted (name rest acc : string) :
  quoteFree name = true ->
  Shell.tokens Shell.InSingle (Some acc) (name ++ rest)
  = Shell.tokens Shell.InSingle (Some (acc ++ name)) rest.
Proof.
  revert acc. induction name as [|a name IH]; intros acc H.
  - cbn [append]. now rewrite append_empty_r.
  - cbn [quoteFree] in H. apply andb_prop in H. destruct H as [Ha Hn].
    cbn [append Shell.tokens]. apply negb_true_iff in Ha. rewrite Ha.
    cbn [Shell.extend]. rewrite IH by exact Hn.
    now rewrite append_assoc.
Qed.

(** The shell reads the kill command of a name without a single quote
    as [pkill -f name], then [||], then [true]. *)
Lemma parse_killCommand (name : string) :
  quoteFree name = true ->
  Shell.parse (killCommand name)
  = Some (["pkill"; "-f"; name], [(Shell.Or, ["true"])]).
Proof.
  intros H.
  unfold Shell.parse, killCommand, Ssh.buildBrowserKillCommand, Js.join.
  cbn -[Shell.isUtility Shell.andOrList forallb].
  rewrite tokens_quoted by exact H.
  cbn. reflexivity.
Qed.

(** When every command ends with status zero, so does every list. *)
Lemma evalRest_zero (others : list (Shell.connector * list string)) :
  forall position,
    Shell.evalRest (fun _ _ => 0%Z) position 0 others = 0%Z.
Proof.
  induction others as [|[[|] command] others IH]; intros position;
    cbn [Shell.evalRest]; [reflexivity | apply IH | apply IH].
Qed.

End KillCommandLine.

Section KillPhase.
Variable env : Env.

(** C2, as amended: an exit code of a kill command, zero or not, never
    aborts the run: when the kill commands close, the loop runs the
    command of every configured name in order and the run completes;
    an error raised while a kill command is executed is logged and
    thrown again, so the remaining names are skipped and the run
    fails with that error, after the session is ended. *)
Theorem kill_exit_codes_never_abort :
  (forall browsers w,
      killsClose env browsers ->
      exists evs,
        SuspendChess.killBrowsers env browsers w = (Returned tt, record evs w) /\
        commandsOf evs = map killCommand browsers) /\
  (forall w w2,
      reachesKill env w w2 ->
      killsClose env SuspendChess.BROWSERS_TO_KILL ->
      exists evs,
        SuspendChess.executeRemoteCommands env w
        = (Returned tt,
           record (evs ++ [ConsoleLog
                             [Glyph PARTY;
                              Text " All commands executed successfully!"];
                           SshEnd]) w2) /\
        commandsOf evs = map killCommand SuspendChess.BROWSERS_TO_KILL) /\
  (forall browser rest w err,
      exec env (trace w) (killCommand browser) = Failed err ->
      SuspendChess.killBrowsers env (browser :: rest) w
      = (Thrown err,
         record [SshExec (killCommand browser); killErrorLog browser err] w)) /\
  (forall w w2 err,
      reachesKill env w w2 ->
      exec env (trace w2) (killCommand "firefox") = Failed err ->
      SuspendChess.executeRemoteCommands env w
      = (Thrown err,
         record [SshExec (killCommand "firefox"); killErrorLog "firefox" err;
                 SshEnd] w2)).
Proof.
  assert (R : forall w w2, reachesKill env w w2 ->
            SuspendChess.executeRemoteCommands env w
            = tryFinally
                (bind (SuspendChess.killAllBrowsers env) (fun _ =>
                 SuspendChess.log PARTY "All commands executed successfully!"))
                (emit SshEnd) w2).
  { intros w w2 Hr. unfold reachesKill, bind in Hr.
    unfold SuspendChess.executeRemoteCommands, tryFinally, bind.
    destruct (SuspendChess.connectAndRead env w) as [[c|e|] w1];
      try discriminate.
    destruct (SuspendChess.uploadHostsFile env c w1) as [[u|e|] w1'];
      try discriminate.
    injection Hr as E. now subst w1'. }
  assert (F : forall browser rest w err,
            exec env (trace w) (killCommand browser) = Failed err ->
            SuspendChess.killBrowsers env (browser :: rest) w
            = (Thrown err,
               record [SshExec (killCommand browser);
                       killErrorLog browser err] w)).
  { intros browser rest w err He. cbn [SuspendChess.killBrowsers].
    unfold bind. now rewrite (killBrowserProcess_failed env _ _ _ He). }
  split; [|split; [|split]].
  - intros browsers w Hc. now apply killBrowsers_all.
  - intros w w2 Hr Hc. rewrite (R w w2 Hr).
    destruct (killBrowsers_all env _ Hc w2) as (evs & Hk & Hcmd).
    exists evs. split; [|exact Hcmd].
    unfold tryFinally, bind, SuspendChess.killAllBrowsers. rewrite Hk.
    unfold SuspendChess.log, emit, modify. now rewrite !record_record.
  - exact F.
  - intros w w2 err Hr He. rewrite (R w w2 Hr).
    unfold tryFinally, bind, SuspendChess.killAllBrowsers,
      SuspendChess.BROWSERS_TO_KILL.
    rewrite (F _ _ _ _ He). unfold emit, modify. now rewrite record_record.
Qed.

(** C9, as amended: the kill command of a name without a single quote
    is the list [pkill -f name || true], whose exit status is zero
    whatever status [pkill] ends with.  So on a remote shell, a kill
    command that exits does so with code zero and is logged as a
    success, the exit-code-1 branch is never taken, and no failure line
    ever carries an exit code: the code tells the orchestrator nothing.
    The failure branch itself stays reachable: when the stream closes
    without an exit code (the command was ended by a signal) the code
    is [null], the branch logs [Failed to kill <name>, exit code:
    null], and the loop goes on. *)
Theorem kill_exit_code_zero_or_absent :
  runsShell env ->
  (forall name,
      quoteFree name = true ->
      Shell.parse (killCommand name)
      = Some (["pkill"; "-f"; name], [(Shell.Or, ["true"])]) /\
      forall run : nat -> list string -> Z,
        (forall position, run position ["true"] = 0%Z) ->
        Shell.evalList run ["pkill"; "-f"; name] [(Shell.Or, ["true"])] = 0%Z) /\
  (forall name w code output,
      quoteFree name = true ->
      exec env (trace w) (killCommand name) = Closed code output ->
      code = 0%Z /\
      SuspendChess.killBrowserProcess env name w
      = (Returned tt,
         record (SshExec (killCommand name)
                   :: outputLog output ++ [killedLog name]) w)) /\
  (forall name w output,
      exec env (trace w) (killCommand name) = ClosedBySignal output ->
      SuspendChess.killBrowserProcess env name w
      = (Returned tt,
         record (SshExec (killCommand name)
                   :: outputLog output ++ [killSignalLog name]) w)) /\
  (forall w, exists evs,
      snd (SuspendChess.killAllBrowsers env w) = record evs w /\
      Forall (fun ev => forall name code,
                  ev <> noProcessesLog name /\ ev <> killFailedLog name code)
             evs).
Proof.
  intros Hs.
  assert (Z0 : forall name (run : nat -> list string -> Z),
             (forall position, run position ["true"] = 0%Z) ->
             Shell.evalList run ["pkill"; "-f"; name] [(Shell.Or, ["true"])]
             = 0%Z).
  { intros name run Ht. unfold Shell.evalList. cbn [Shell.evalRest].
    rewrite Ht. destruct (Z.eqb_spec (run 0%nat ["pkill"; "-f"; name]) 0);
      [assumption | reflexivity]. }
  assert (K : forall name w code output,
             quoteFree name = true ->
             exec env (trace w) (killCommand name) = Closed code output ->
             code = 0%Z /\
             SuspendChess.killBrowserProcess env name w
             = (Returned tt,
                record (SshExec (killCommand name)
                          :: outputLog output ++ [killedLog name]) w)).
  { intros name w code output Hq He.
    destruct (Hs _ _ _ _ _ _ He (parse_killCommand name Hq))
      as (run & Ht & Hc).
    rewrite (Z0 name run Ht) in Hc. subst code. split; [reflexivity|].
    now rewrite (killBrowserProcess_closed env _ _ _ _ He). }
  split.
  { intros name Hq. split; [now apply parse_killCommand|]. apply Z0. }
  split; [exact K|].
  split; [intros name w output He; now apply killBrowserProcess_signalled|].
  assert (G : forall browsers,
             forallb quoteFree browsers = true ->
             forall w, exists evs,
               snd (SuspendChess.killBrowsers env browsers w) = record evs w /\
               Forall (fun ev => forall name code,
                           ev <> noProcessesLog name /\
                           ev <> killFailedLog name code) evs).
  { induction browsers as [|browser rest IH]; intros Hq w.
    - exists []. now rewrite record_nil.
    - cbn [forallb] in Hq. apply andb_prop in Hq. destruct Hq as [Hb Hrest].
      cbn [SuspendChess.killBrowsers]. unfold bind.
      destruct (exec env (trace w) (killCommand browser))
        as [code output|output|err] eqn:He.
      + rewrite (proj2 (K _ _ _ _ Hb He)).
        destruct (IH Hrest
                    (record (SshExec (killCommand browser)
                               :: outputLog output ++ [killedLog browser]) w))
          as (evs & Hr & Hf).
        eexists. rewrite Hr, record_record. split; [reflexivity|].
        apply Forall_app. split; [|exact Hf].
        constructor; [split; discriminate|].
        apply Forall_app. split.
        * destruct output; cbn [outputLog]; constructor;
            [split; discriminate | constructor].
        * constructor; [split; discriminate | constructor].
      + rewrite (killBrowserProcess_signalled env _ _ _ He).
        destruct (IH Hrest
                    (record (SshExec (killCommand browser)
                               :: outputLog output ++ [killSignalLog browser]) w))
          as (evs & Hr & Hf).
        eexists. rewrite Hr, record_record. split; [reflexivity|].
        apply Forall_app. split; [|exact Hf].
        constructor; [split; discriminate|].
        apply Forall_app. split.
        * destruct output; cbn [outputLog]; constructor;
            [split; discriminate | constructor].
        * constructor; [|constructor].
          split; [discriminate|]. apply killSignalLog_no_code.
      + rewrite (killBrowserProcess_failed env _ _ _ He). cbn [snd].
        eexists. split; [reflexivity|].
        constructor; [split; discriminate|].
        constructor; [|constructor].
        split; [discriminate|].
        intros H. injection H as H. discriminate H. }
  apply G. reflexivity.
Qed.

End KillPhase.

(** A channel error during the first kill command: the run reaches the
    kill phase, fails, and never runs the command of the second name. *)
Lemma kill_channel_error_aborts_run :
  let env := Sample.sampleEnv 0 0 [killCommand "firefox"] in
  let run := SuspendChess.executeRemoteCommands env Sample.sampleWorld in
  (exists w2, reachesKill env Sample.sampleWorld w2) /\
  SuspendChess.BROWSERS_TO_KILL = ["firefox"; "brave"] /\
  fst run = Thrown (Error "channel closed") /\
  commandsOf (trace (snd run))
  = [SuspendChess.buildCompleteUploadCommand "password" "127.0.0.1 lichess.org";
     killCommand "firefox"] /\
  ~ In (killCommand "brave") (commandsOf (trace (snd run))).
Proof.
  cbv zeta. split; [eexists; unfold reachesKill; lazy; reflexivity|].
  split; [reflexivity|]. split; [reflexivity|]. split; [reflexivity|].
  vm_compute. intros [H|[H|[]]]; discriminate H.
Qed.

Lemma sample_killsClose (uploadCode killCode : Z) (browsers : list string) :
  killsClose (Sample.sampleEnv uploadCode killCode []) browsers.
Proof.
  intros tr b _. cbn [exec Sample.sampleEnv]. unfold Sample.sampleExec.
  cbn [Js.arrayIncludes existsb].
  destruct (Js.includes (killCommand b) "sudo -S"); eauto.
Qed.

Lemma kill_exit_codes_never_abort_witness :
  let env := Sample.sampleEnv 0 2 [] in
  (exists evs,
      SuspendChess.executeRemoteCommands env Sample.sampleWorld
      = (Returned tt,
         record (evs ++ [ConsoleLog
                           [Glyph PARTY;
                            Text " All commands executed successfully!"];
                         SshEnd])
           (snd (bind (SuspendChess.connectAndRead env)
                      (SuspendChess.uploadHostsFile env) Sample.sampleWorld))) /\
      commandsOf evs = [killCommand "firefox"; killCommand "brave"]) /\
  SuspendChess.killBrowsers (Sample.sampleEnv 0 0 [killCommand "firefox"])
    ["firefox"; "brave"] Sample.sampleWorld
  = (Thrown (Error "channel closed"),
     record [SshExec (killCommand "firefox");
             killErrorLog "firefox" (Error "channel closed")]
       Sample.sampleWorld) /\
  let failing := Sample.sampleEnv 0 0 [killCommand "firefox"] in
  SuspendChess.executeRemoteCommands failing Sample.sampleWorld
  = (Thrown (Error "channel closed"),
     record [SshExec (killCommand "firefox");
             killErrorLog "firefox" (Error "channel closed"); SshEnd]
       (snd (bind (SuspendChess.connectAndRead failing)
                  (SuspendChess.uploadHostsFile failing) Sample.sampleWorld))).
Proof.
  split; [|split].
  3: apply (proj2 (proj2 (proj2 (kill_exit_codes_never_abort
                                  (Sample.sampleEnv 0 0 [killCommand "firefox"]))))
             Sample.sampleWorld _ (Error "channel closed") eq_refl eq_refl).
  - apply (proj1 (proj2 (kill_exit_codes_never_abort (Sample.sampleEnv 0 2 [])))
             Sample.sampleWorld _ eq_refl (sample_killsClose 0 2 _)).
  - apply (proj1 (proj2 (proj2 (kill_exit_codes_never_abort
                                  (Sample.sampleEnv 0 0 [killCommand "firefox"]))))
             "firefox" ["brave"] Sample.sampleWorld (Error "channel closed")
             eq_refl).
Defined.

Lemma sample_runsShell : runsShell (Sample.sampleEnv 0 0 []).
Proof.
  intros tr command code output first others He _.
  exists (fun _ _ => 0%Z). split; [reflexivity|].
  unfold Shell.evalList. rewrite evalRest_zero.
  cbn [exec Sample.sampleEnv] in He. unfold Sample.sampleExec in He.
  cbn [Js.arrayIncludes existsb] in He.
  destruct (Js.includes command "sudo -S"); now injection He as <- _.
Qed.

Lemma kill_exit_code_zero_or_absent_witness :
  runsShell (Sample.sampleEnv 0 0 []) /\
  quoteFree "firefox" = true /\
  SuspendChess.killBrowserProcess (Sample.sampleEnv 0 0 []) "firefox"
    Sample.sampleWorld
  = (Returned tt,
     record [SshExec (killCommand "firefox"); killedLog "firefox"]
       Sample.sampleWorld).
Proof.
  split; [exact sample_runsShell|]. split; [reflexivity|].
  apply (proj2 (proj1 (proj2 (kill_exit_code_zero_or_absent
                         (Sample.sampleEnv 0 0 []) sample_runsShell))
           "firefox" Sample.sampleWorld 0%Z EmptyString eq_refl eq_refl)).
Defined.

(** A remote shell on which the shell of the first kill command is
    ended by a signal: the failure branch of [killBrowserProcess] is
    taken and its line is printed during the run, which then goes on
    to the second name and completes. *)
Lemma kill_ended_by_signal_logs_failure :
  let env := Sample.signalEnv in
  let failure :=
    ConsoleError [Glyph ERROR;
                  Text " Failed to kill firefox, exit code: null"] in
  let run := SuspendChess.executeRemoteCommands env Sample.sampleWorld in
  runsShell env /\
  Js.endsWith (killCommand "firefox") "|| true" = true /\
  SuspendChess.killBrowserProcess env "firefox" Sample.sampleWorld
  = (Returned tt,
     record [SshExec (killCommand "firefox"); failure] Sample.sampleWorld) /\
  fst run = Returned tt /\
  In failure (trace (snd run)) /\
  In (killedLog "brave") (trace (snd run)).
Proof.
  cbv zeta. split.
  - intros tr command code output first others He _.
    exists (fun _ _ => 0%Z). split; [reflexivity|].
    unfold Shell.evalList. rewrite evalRest_zero.
    cbn [exec Sample.signalEnv] in He. unfold Sample.signalExec in He.
    destruct (String.eqb _ _); [discriminate He | now injection He as <- _].
  - split; [reflexivity|]. split; [reflexivity|]. split; [reflexivity|].
    split; vm_compute; tauto.
Qed.

(** ** The default-mode flag around a run *)

Section DefaultMode.
Variable env : Env.

Lemma suspendChess_unfold (shouldBlock : option bool) (w : world) :
  SuspendChess.suspendChess env shouldBlock w
  = match guarded env (setSuspendChess (modeOf shouldBlock w) w) with
    | (Pending, wBody) => (Pending, wBody)
    | (r, wBody) => (r, setSuspendChess (suspendChess (SSH_CONFIG w)) wBody)
    end.
Proof.
  unfold SuspendChess.suspendChess, bind, get, modify, tryFinally.
  reflexivity.
Qed.

Variable P : event -> Prop.
Hypothesis P_plain : forall ev, plain ev = true -> P ev.
Hypothesis P_end : P SshEnd.

Lemma suspendChess_effects (shouldBlock : option bool) (w : world) :
  P (ReadFileSync (hostsPath env (modeOf shouldBlock w))) ->
  let run := SuspendChess.suspendChess env shouldBlock w in
  fst run <> Pending /\
  suspendChess (SSH_CONFIG (snd run)) = suspendChess (SSH_CONFIG w) /\
  headersSent (snd run) = headersSent w /\
  exists evs, trace (snd run) = (trace w ++ evs)%list /\ Forall P evs.
Proof.
  intros P_read run. subst run. rewrite suspendChess_unfold.
  destruct (quiet_suspendChessTry env (modeOf shouldBlock w) P P_plain P_read
              P_end (setSuspendChess (modeOf shouldBlock w) w) eq_refl)
    as (Hs & Hf & Hh & evs & Ht & Hc).
  fold (guarded env) in Hs, Hf, Hh, Ht.
  destruct (guarded env (setSuspendChess (modeOf shouldBlock w) w))
    as [[r|e|] wBody]; cbn in *; try (now elim Hs);
    (repeat split; try discriminate; try assumption; now exists evs).
Qed.

End DefaultMode.

Lemma filesRead_only (path : string) (evs : list event) :
  Forall (fun ev => forall p, ev = ReadFileSync p -> p = path) evs ->
  Forall (fun p => p = path) (filesRead evs).
Proof.
  induction 1 as [|ev evs H _ IH]; [constructor|].
  destruct ev; cbn; try exact IH. constructor; [now apply H | exact IH].
Qed.

(** C10: [suspendChess] saves the default-mode flag, runs in the mode
    of its argument (the flag when the argument is absent) and puts
    the saved value back on every exit path: the run always settles,
    by returning or by throwing, and in both cases the flag is what it
    was before the call.  During the run the flag is the argument:
    the [try] block starts and ends with it, and the only local hosts
    file read is the one of that mode. *)
Theorem suspendChess_restores_default
    (env : Env) (shouldBlock : option bool) (w : world) :
  let original := suspendChess (SSH_CONFIG w) in
  let mode := match shouldBlock with Some b => b | None => original end in
  let run := SuspendChess.suspendChess env shouldBlock w in
  (exists r wBody,
      guarded env (setSuspendChess mode w) = (r, wBody) /\
      r <> Pending /\
      suspendChess (SSH_CONFIG wBody) = mode /\
      run = (r, setSuspendChess original wBody)) /\
  ((exists v, fst run = Returned v) \/ (exists e, fst run = Thrown e)) /\
  suspendChess (SSH_CONFIG (snd run)) = original /\
  exists evs,
    trace (snd run) = (trace w ++ evs)%list /\
    Forall (fun p => p = hostsPath env mode) (filesRead evs).
Proof.
  intros original mode run.
  pose (P := fun ev => forall p, ev = ReadFileSync p -> p = hostsPath env mode).
  assert (P_plain : forall ev, plain ev = true -> P ev).
  { intros ev H p ->. discriminate H. }
  assert (P_read : P (ReadFileSync (hostsPath env mode))).
  { intros p E. now injection E as <-. }
  assert (P_end : P SshEnd) by (intros p E; discriminate E).
  destruct (suspendChess_effects env P P_plain P_end shouldBlock w P_read)
    as (Hs & Hf & _ & evs & Ht & Hc).
  fold run in Hs, Hf, Ht.
  split; [|split; [|split]].
  - destruct (quiet_suspendChessTry env mode P P_plain P_read P_end
                (setSuspendChess mode w) eq_refl) as (Hs' & Hf' & _).
    subst run. rewrite suspendChess_unfold.
    change (modeOf shouldBlock w) with mode. fold original.
    fold (guarded env) in Hs', Hf'.
    destruct (guarded env (setSuspendChess mode w)) as [[v|e|] wBody];
      cbn in Hs', Hf'; [| |now elim Hs'];
      eexists; eexists; (split; [reflexivity|]);
      (split; [discriminate|]); (split; [exact Hf' | reflexivity]).
  - destruct (fst run) as [v|e|]; [left; now exists v | right; now exists e|].
    now elim Hs.
  - exact Hf.
  - exists evs. split; [exact Ht | now apply filesRead_only].
Qed.

Example suspendChess_restores_after_success :
  let run := SuspendChess.suspendChess (Sample.sampleEnv 0 0 []) (Some false)
               Sample.sampleWorld in
  fst run = Returned true /\ suspendChess (SSH_CONFIG (snd run)) = true /\
  filesRead (trace (snd run)) = ["/home/user/chess/config/hostscommented"].
Proof. vm_compute. repeat split. Qed.

Example suspendChess_restores_after_failure :
  let run := SuspendChess.suspendChess (Sample.sampleEnv 2 0 []) (Some false)
               Sample.sampleWorld in
  fst run = Thrown (Error "Upload failed with exit code 2") /\
  suspendChess (SSH_CONFIG (snd run)) = true /\
  filesRead (trace (snd run)) = ["/home/user/chess/config/hostscommented"].
Proof. vm_compute. repeat split. Qed.

(** ** The webhook front-end *)

Section Webhook.
Variable env : Env.






End Webhook.


Example webhook_scenario_C :
  let req := {| NtfyListener.message := Some "block this now";
                NtfyListener.title := None;
                NtfyListener.priority := None;
                NtfyListener.tags := Some [] |} in
  let run := NtfyListener.ntfyWebhook (Sample.sampleEnv 0 1 []) req
               Sample.sampleWorld in
  fst run = Returned tt /\
  filter (fun ev => isResJson ev || negb (plain ev) || negb (isConsole ev))
         (trace (snd run))
  = [ResJson 200 [("status", "accepted"); ("action", "blocking");
                  ("message", "Processing chess command...")];
     StdoutWrite [Text (String (ascii_of_nat 13) (String (ascii_of_nat 27) "[K"))];
     SshConnect "192.168.0.10" "user" "password";
     ReadFileSync "/home/user/chess/config/hostsuncommented";
     SshExec (SuspendChess.buildCompleteUploadCommand "password"
                "127.0.0.1 lichess.org");
     SshExec "pkill -f 'firefox' || true";
     SshExec "pkill -f 'brave' || true";
     SshEnd].
Proof. vm_compute. split; reflexivity. Qed.

Example webhook_scenario_D :
  let req := {| NtfyListener.message := Some "hello";
                NtfyListener.title := None;
                NtfyListener.priority := None;
                NtfyListener.tags := Some [] |} in
  let run := NtfyListener.ntfyWebhook (Sample.sampleEnv 0 1 []) req
               Sample.sampleWorld in
  fst run = Returned tt /\
  filter (fun ev => negb (isConsole ev)) (trace (snd run))
  = [ResJson 200 [("status", "ignored");
                  ("message", "Not a valid chess command")]].
Proof. vm_compute. split; reflexivity. Qed.

(** * Further properties *)

Import MoreProps.

(** ** More on the command builders *)

Section MoreBuilders.

(** X1: [escapeForShell] loses nothing: two texts with the same
    escaped form are the same text. *)
Theorem escapeForShell_injective (s1 s2 : string) :
  Ssh.escapeForShell s1 = Ssh.escapeForShell s2 -> s1 = s2.
Proof.
  intros E.
  assert (H : Some s1 = Some s2).
  { rewrite <- (singleQuoted_escaped_value s1), E.
    apply singleQuoted_escaped_value. }
  now injection H.
Qed.

Lemma length_append (s t : string) :
  String.length (s ++ t) = String.length s + String.length t.
Proof. induction s as [|a s IH]; cbn; [reflexivity | now rewrite IH]. Qed.

Lemma countQuotes_app (s t : string) :
  countQuotes (s ++ t) = countQuotes s + countQuotes t.
Proof.
  induction s as [|a s IH]; cbn [append countQuotes]; [reflexivity|].
  rewrite IH. lia.
Qed.

Lemma escapeForShell_length (s : string) :
  String.length (Ssh.escapeForShell s) = String.length s + 3 * countQuotes s.
Proof.
  unfold Ssh.escapeForShell.
  induction s as [|a s IH]; [reflexivity|].
  cbn [Js.replaceAllChar countQuotes String.length].
  destruct (Ascii.eqb a Js.quote).
  - rewrite length_append, IH. cbn [String.length]. lia.
  - cbn [String.length]. rewrite IH. lia.
Qed.

Lemma escapeForShell_countQuotes (s : string) :
  countQuotes (Ssh.escapeForShell s) = 3 * countQuotes s.
Proof.
  unfold Ssh.escapeForShell.
  induction s as [|a s IH]; [reflexivity|].
  cbn [Js.replaceAllChar countQuotes].
  destruct (Ascii.eqb a Js.quote) eqn:Ha.
  - rewrite countQuotes_app, IH. cbn. lia.
  - cbn [countQuotes]. rewrite Ha, IH. lia.
Qed.

Lemma escapeForShell_quote_free (s : string) :
  countQuotes s = 0 -> Ssh.escapeForShell s = s.
Proof.
  unfold Ssh.escapeForShell.
  induction s as [|a s IH]; [reflexivity|].
  cbn [Js.replaceAllChar countQuotes].
  destruct (Ascii.eqb a Js.quote); [discriminate|].
  intros H. now rewrite IH.
Qed.

(** X2: escaping adds three characters for each single quote and
    triples the number of single quotes; so a text is left unchanged
    exactly when it has no single quote, and escaping an escaped text
    again changes it exactly when the text has a single quote. *)
Theorem escapeForShell_growth (s : string) :
  String.length (Ssh.escapeForShell s) = String.length s + 3 * countQuotes s /\
  countQuotes (Ssh.escapeForShell s) = 3 * countQuotes s /\
  (Ssh.escapeForShell s = s <-> countQuotes s = 0) /\
  (Ssh.escapeForShell (Ssh.escapeForShell s) = Ssh.escapeForShell s
   <-> countQuotes s = 0).
Proof.
  assert (F : forall t, Ssh.escapeForShell t = t <-> countQuotes t = 0).
  { intros t. split; [|apply escapeForShell_quote_free].
    intros E. pose proof (escapeForShell_length t) as L.
    rewrite E in L. lia. }
  split; [apply escapeForShell_length|].
  split; [apply escapeForShell_countQuotes|].
  split; [apply F|].
  rewrite F, escapeForShell_countQuotes. lia.
Qed.

(** A text without single quotes, placed between single quotes, is
    read back as it is. *)
Lemma wordValue_quote_free (body rest : string) :
  countQuotes body = 0 ->
  Shell.wordValue Shell.InSingle (body ++ rest)
  = option_map (append body) (Shell.wordValue Shell.InSingle rest).
Proof.
  intros H. rewrite <- (escapeForShell_quote_free body H) at 1.
  apply wordValue_escaped.
Qed.

(** What the shell reads is never longer than what is written, and
    every quote character costs at least one character. *)
Lemma wordValue_shorter (n : nat) :
  forall input, String.length input <= n ->
    (forall v, Shell.wordValue Shell.InSingle input = Some v ->
               String.length v + 1 <= String.length input /\
               (2 <= countQuotes input ->
                String.length v + 2 <= String.length input)) /\
    (forall v, Shell.wordValue Shell.Unquoted input = Some v ->
               String.length v <= String.length input /\
               (1 <= countQuotes input ->
                String.length v + 1 <= String.length input)).
Proof.
  induction n as [|n IH]; intros input Hn.
  - destruct input; [|cbn in Hn; lia].
    split; intros v H; cbn in H; [discriminate|].
    injection H as <-. cbn. lia.
  - destruct input as [|a rest].
    { split; intros v H; cbn in H; [discriminate|].
      injection H as <-. cbn. lia. }
    cbn [String.length] in Hn.
    assert (Hr : String.length rest <= n) by lia.
    destruct (IH rest Hr) as [IHs IHu].
    split; intros v H; cbn [Shell.wordValue] in H;
      cbn [String.length countQuotes].
    + destruct (Ascii.eqb a Js.quote).
      * destruct (IHu v H) as [L1 L2]. lia.
      * destruct (Shell.wordValue Shell.InSingle rest) as [v'|] eqn:E;
          [|discriminate].
        injection H as <-. destruct (IHs v' eq_refl) as [L1 L2].
        cbn [String.length]. lia.
    + destruct (Ascii.eqb a Js.quote).
      * destruct (IHs v H) as [L1 L2]. lia.
      * destruct (Ascii.eqb a Js.backslash).
        -- destruct rest as [|b rest']; [discriminate|].
           cbn [String.length] in Hr.
           assert (Hr' : String.length rest' <= n) by lia.
           destruct (IH rest' Hr') as [_ IHu'].
           cbn [String.length countQuotes].
           destruct (Ascii.eqb b Shell.newline).
           ++ destruct (IHu' v H) as [L1 _]. lia.
           ++ destruct (Shell.wordValue Shell.Unquoted rest') as [v'|] eqn:E;
                [|discriminate].
              injection H as <-. destruct (IHu' v' eq_refl) as [L1 _].
              cbn [String.length]. lia.
        -- destruct (Shell.isSpecial a); [discriminate|].
           destruct (Shell.wordValue Shell.Unquoted rest) as [v'|] eqn:E;
             [|discriminate].
           injection H as <-. destruct (IHu v' eq_refl) as [L1 L2].
           cbn [String.length]. lia.
Qed.

Lemma singleQuoted_value_iff (body : string) :
  Shell.wordValue Shell.Unquoted (Shell.singleQuoted body) = Some body
  <-> countQuotes body = 0.
Proof.
  unfold Shell.singleQuoted.
  change (Shell.wordValue Shell.Unquoted ("'" ++ body ++ "'"))
    with (Shell.wordValue Shell.InSingle (body ++ "'")).
  split.
  - intros H.
    destruct (wordValue_shorter _ (body ++ "'") (le_n _)) as [Hs _].
    destruct (Hs body H) as [_ L].
    rewrite countQuotes_app, length_append in L. cbn in L. lia.
  - intros H. rewrite (wordValue_quote_free body "'" H). cbn.
    now rewrite append_empty_r.
Qed.

(** X4: the kill command puts the joined names between single quotes
    without escaping them: the shell reads the pattern back as the
    joined names exactly when no name contains a single quote. *)
Theorem buildBrowserKillCommand_pattern (browsers : list string) :
  Ssh.buildBrowserKillCommand browsers
  = "pkill -f " ++ Shell.singleQuoted (Js.join " " browsers) ++ " || true" /\
  (Shell.wordValue Shell.Unquoted (Shell.singleQuoted (Js.join " " browsers))
   = Some (Js.join " " browsers)
   <-> countQuotes (Js.join " " browsers) = 0).
Proof.
  split; [|apply singleQuoted_value_iff].
  unfold Ssh.buildBrowserKillCommand, Shell.singleQuoted.
  cbn [append]. now rewrite !append_assoc.
Qed.

(** X3: the upload command run through [sudo] is quoted twice and
    comes back whole: [bash -c] is handed exactly the upload command,
    and in that command [printf] is handed exactly the hosts content;
    the password is read back as the password. *)
Theorem buildCompleteUploadCommand_round_trip (pw hostsContent : string) :
  let upload :=
    Ssh.buildHostsUploadCommand SuspendChess.REMOTE_HOSTS_PATH
      SuspendChess.REMOTE_HOSTS_BACKUP_PATH hostsContent in
  SuspendChess.buildCompleteUploadCommand pw hostsContent
  = "echo " ++ Shell.singleQuoted (Ssh.escapeForShell pw)
    ++ " | sudo -S bash -c " ++ Shell.singleQuoted (Ssh.escapeForShell upload) /\
  Shell.wordValue Shell.Unquoted (Shell.singleQuoted (Ssh.escapeForShell pw))
  = Some pw /\
  Shell.wordValue Shell.Unquoted (Shell.singleQuoted (Ssh.escapeForShell upload))
  = Some upload /\
  upload
  = "cp /etc/hosts /etc/hosts.backup && printf '%s\n' "
    ++ Shell.singleQuoted (Ssh.escapeForShell hostsContent) ++ " > /etc/hosts" /\
  Shell.wordValue Shell.Unquoted
    (Shell.singleQuoted (Ssh.escapeForShell hostsContent))
  = Some hostsContent.
Proof.
  intros upload.
  split; [|split; [apply singleQuoted_escaped_value|
           split; [apply singleQuoted_escaped_value|
           split; [|apply singleQuoted_escaped_value]]]].
  - unfold SuspendChess.buildCompleteUploadCommand, Ssh.buildSudoCommand.
    fold upload. fold (Ssh.escapeForShell upload).
    unfold Shell.singleQuoted. cbn [append]. now rewrite !append_assoc.
  - subst upload. unfold Ssh.buildHostsUploadCommand, Shell.singleQuoted.
    fold (Ssh.escapeForShell hostsContent).
    cbn [append SuspendChess.REMOTE_HOSTS_PATH
         SuspendChess.REMOTE_HOSTS_BACKUP_PATH].
    now rewrite !append_assoc.
Qed.

End MoreBuilders.

Lemma escapeForShell_injective_witness : "it's" = "it's".
Proof. exact (escapeForShell_injective "it's" "it's" eq_refl). Defined.

Lemma escapeForShell_growth_witness : Ssh.escapeForShell "hosts" = "hosts".
Proof.
  exact (proj2 (proj1 (proj2 (proj2 (escapeForShell_growth "hosts")))) eq_refl).
Defined.

Lemma buildBrowserKillCommand_pattern_witness :
  Shell.wordValue Shell.Unquoted (Shell.singleQuoted "firefox brave")
  = Some "firefox brave".
Proof.
  exact (proj2 (proj2 (buildBrowserKillCommand_pattern ["firefox"; "brave"]))
           eq_refl).
Defined.

Example buildBrowserKillCommand_quote_in_name :
  Ssh.buildBrowserKillCommand ["it's"] = "pkill -f 'it's' || true" /\
  Shell.wordValue Shell.Unquoted (Shell.singleQuoted "it's") = None.
Proof. split; reflexivity. Qed.

(** ** More on the intent parser *)

Section MoreParser.

Lemma lowerUnit_idempotent (a : ascii) :
  Js.lowerUnit (Js.lowerUnit a) = Js.lowerUnit a.
Proof. destruct a as [[] [] [] [] [] [] [] []]; reflexivity. Qed.

Lemma toLowerCase_idempotent (s : string) :
  Js.toLowerCase (Js.toLowerCase s) = Js.toLowerCase s.
Proof.
  induction s as [|a s IH]; [reflexivity|].
  cbn [Js.toLowerCase]. now rewrite lowerUnit_idempotent, IH.
Qed.

Lemma toLowerCase_app (s t : string) :
  Js.toLowerCase (s ++ t) = Js.toLowerCase s ++ Js.toLowerCase t.
Proof.
  induction s as [|a s IH]; [reflexivity|].
  cbn [append Js.toLowerCase]. now rewrite IH.
Qed.

(** X5: the parser is blind to letter case: lower-casing the message
    and every tag beforehand never changes the answer. *)
Theorem parseChessCommand_case_blind
    (message : option string) (tags : option (list string)) :
  Commands.parseChessCommand
    (option_map Js.toLowerCase message)
    (option_map (map Js.toLowerCase) tags)
  = Commands.parseChessCommand message tags.
Proof.
  unfold Commands.parseChessCommand.
  replace (Commands.messageLower (option_map Js.toLowerCase message))
    with (Commands.messageLower message)
    by (destruct message; cbn; [now rewrite toLowerCase_idempotent | reflexivity]).
  replace (Commands.tagsList (option_map (map Js.toLowerCase) tags))
    with (Commands.tagsList tags); [reflexivity|].
  unfold Commands.tagsList. destruct tags as [l|]; cbn [option_map]; [|reflexivity].
  rewrite map_map. apply map_ext. intros t. now rewrite toLowerCase_idempotent.
Qed.

Lemma prefix_app_r (needle hay post : string) :
  String.prefix needle hay = true -> String.prefix needle (hay ++ post) = true.
Proof.
  revert hay. induction needle as [|a needle IH]; intros hay H.
  - now destruct (hay ++ post).
  - destruct hay as [|b hay]; [discriminate|]. cbn in *.
    destruct (ascii_dec a b); [now apply IH | discriminate].
Qed.

Lemma includes_app_r (hay post needle : string) :
  Js.includes hay needle = true -> Js.includes (hay ++ post) needle = true.
Proof.
  induction hay as [|a hay IH]; intros H.
  - cbn in H. rewrite orb_false_r in H.
    destruct needle; [|discriminate].
    destruct post; reflexivity.
  - change (Js.includes (String a hay) needle)
      with (String.prefix needle (String a hay) || Js.includes hay needle) in H.
    apply orb_true_iff in H. destruct H as [H|H].
    + apply includes_prefix. now apply (prefix_app_r needle (String a hay) post).
    + cbn [append]. apply includes_tail. now apply IH.
Qed.

Lemma includes_app_l (pre hay needle : string) :
  Js.includes hay needle = true -> Js.includes (pre ++ hay) needle = true.
Proof.
  intros H. induction pre as [|a pre IH]; [exact H|].
  cbn [append]. now apply includes_tail.
Qed.

Lemma includes_context (pre hay post needle : string) :
  Js.includes hay needle = true ->
  Js.includes (pre ++ hay ++ post) needle = true.
Proof. intros H. apply includes_app_l. now apply includes_app_r. Qed.

(** X6: Block survives any surrounding text: when a message gives
    Block with some tags, the message with any text before and after
    it gives Block with the same tags. *)
Theorem block_survives_context
    (pre message post : string) (tags : option (list string)) :
  Commands.parseChessCommand (Some message) tags = Commands.Block ->
  Commands.parseChessCommand (Some (pre ++ message ++ post)) tags
  = Commands.Block.
Proof.
  unfold Commands.parseChessCommand, Commands.Block.
  cbn [Commands.messageLower].
  rewrite !toLowerCase_app.
  destruct (Js.arrayIncludes (Commands.tagsList tags) "block"
            || Js.arrayIncludes (Commands.tagsList tags) "suspend");
    [reflexivity|].
  destruct (Js.arrayIncludes (Commands.tagsList tags) "allow"
            || Js.arrayIncludes (Commands.tagsList tags) "unblock");
    [discriminate|].
  destruct (Js.includes (Js.toLowerCase message) "block"
            || Js.includes (Js.toLowerCase message) "suspend"
            || Js.includes (Js.toLowerCase message) "stop chess"
            || Js.includes (Js.toLowerCase message) "disable chess") eqn:E.
  - intros _.
    repeat (apply orb_true_iff in E; destruct E as [E|E]);
      rewrite (includes_context _ _ _ _ E); now rewrite ?orb_true_r.
  - destruct (Js.includes (Js.toLowerCase message) "allow"
              || Js.includes (Js.toLowerCase message) "unblock"
              || Js.includes (Js.toLowerCase message) "enable chess"
              || Js.includes (Js.toLowerCase message) "start chess");
      discriminate.
Qed.

(** X7: in the message text the word [unblock] never decides: when the
    answer is Allow, either a tag says so or the lower-cased text
    contains [allow], [enable chess] or [start chess], and it contains
    neither [block] nor [unblock]. *)
Theorem allow_never_by_unblock
    (message : option string) (tags : option (list string)) :
  Commands.parseChessCommand message tags = Commands.Allow ->
  (Js.arrayIncludes (Commands.tagsList tags) "allow" = true \/
   Js.arrayIncludes (Commands.tagsList tags) "unblock" = true) \/
  ((Js.includes (Commands.messageLower message) "allow" = true \/
    Js.includes (Commands.messageLower message) "enable chess" = true \/
    Js.includes (Commands.messageLower message) "start chess" = true) /\
   Js.includes (Commands.messageLower message) "block" = false /\
   Js.includes (Commands.messageLower message) "unblock" = false).
Proof.
  unfold Commands.parseChessCommand, Commands.Allow.
  destruct (Js.arrayIncludes (Commands.tagsList tags) "block"
            || Js.arrayIncludes (Commands.tagsList tags) "suspend");
    [discriminate|].
  destruct (Js.arrayIncludes (Commands.tagsList tags) "allow") eqn:Ta;
    [intros _; left; now left|].
  destruct (Js.arrayIncludes (Commands.tagsList tags) "unblock") eqn:Tu;
    [intros _; left; now right|].
  cbn [orb].
  destruct (Js.includes (Commands.messageLower message) "block") eqn:Mb;
    [discriminate|].
  assert (Mu : Js.includes (Commands.messageLower message) "unblock" = false).
  { destruct (Js.includes (Commands.messageLower message) "unblock") eqn:Mu;
      [|reflexivity].
    now rewrite (unblock_includes_block _ Mu) in Mb. }
  rewrite Mu. cbn [orb].
  destruct (Js.includes (Commands.messageLower message) "suspend"
            || Js.includes (Commands.messageLower message) "stop chess"
            || Js.includes (Commands.messageLower message) "disable chess");
    [discriminate|].
  destruct (Js.includes (Commands.messageLower message) "allow") eqn:Ma;
    [intros _; right; repeat split; auto|].
  destruct (Js.includes (Commands.messageLower message) "enable chess") eqn:Me;
    [intros _; right; repeat split; auto|].
  destruct (Js.includes (Commands.messageLower message) "start chess") eqn:Ms;
    [intros _; right; repeat split; auto | discriminate].
Qed.

Lemma arrayIncludes_In (arr : list string) (x : string) :
  Js.arrayIncludes arr x = true <-> In x arr.
Proof.
  unfold Js.arrayIncludes. rewrite existsb_exists. split.
  - intros (y & Hy & E). apply String.eqb_eq in E. now subst y.
  - intros H. exists x. split; [exact H | apply String.eqb_refl].
Qed.

Lemma arrayIncludes_sameTags (tags1 tags2 : list string) (x : string) :
  sameTags tags1 tags2 ->
  Js.arrayIncludes (map Js.toLowerCase tags1) x
  = Js.arrayIncludes (map Js.toLowerCase tags2) x.
Proof.
  intros H. apply eq_true_iff_eq. rewrite !arrayIncludes_In, !in_map_iff.
  split; intros (t & E & Ht); exists t; (split; [exact E | now apply H]).
Qed.

(** X8: only the set of tags matters: two tag lists with the same
    members, in any order and with any repetitions, give the same
    answer for every message. *)
Theorem parseChessCommand_tag_set
    (message : option string) (tags1 tags2 : list string) :
  sameTags tags1 tags2 ->
  Commands.parseChessCommand message (Some tags1)
  = Commands.parseChessCommand message (Some tags2).
Proof.
  intros H. unfold Commands.parseChessCommand, Commands.tagsList.
  now rewrite !(arrayIncludes_sameTags tags1 tags2 _ H).
Qed.

End MoreParser.

Lemma block_survives_context_witness :
  Commands.parseChessCommand (Some "please allow, do not block, thanks") None
  = Commands.Block.
Proof.
  exact (block_survives_context "please allow, do not " "block" ", thanks" None
           eq_refl).
Defined.

Lemma allow_never_by_unblock_witness :
  (Js.arrayIncludes (Commands.tagsList (Some ["chess"])) "allow" = true \/
   Js.arrayIncludes (Commands.tagsList (Some ["chess"])) "unblock" = true) \/
  ((Js.includes (Commands.messageLower (Some "Enable chess access")) "allow"
    = true \/
    Js.includes (Commands.messageLower (Some "Enable chess access"))
      "enable chess" = true \/
    Js.includes (Commands.messageLower (Some "Enable chess access"))
      "start chess" = true) /\
   Js.includes (Commands.messageLower (Some "Enable chess access")) "block"
   = false /\
   Js.includes (Commands.messageLower (Some "Enable chess access")) "unblock"
   = false).
Proof.
  exact (allow_never_by_unblock (Some "Enable chess access") (Some ["chess"])
           eq_refl).
Defined.

Lemma parseChessCommand_tag_set_witness :
  Commands.parseChessCommand (Some "hello") (Some ["allow"; "Block"; "allow"])
  = Commands.parseChessCommand (Some "hello") (Some ["Block"; "allow"]).
Proof.
  apply parseChessCommand_tag_set.
  intros t; cbn; tauto.
Defined.

(** ** More on the orchestrator *)

Section MoreOrchestrator.
Variable env : Env.

Lemma bind_emit {A} (ev : event) (k : unit -> M A) (w : world) :
  bind (emit ev) k w = k tt (record [ev] w).
Proof. reflexivity. Qed.

Lemma readLocalHostsFile_run (isBlocking : bool) (w : world) :
  SuspendChess.readLocalHostsFile env isBlocking w
  = let path := hostsPath env isBlocking in
    match readFileSync env (trace w ++ readingLines env isBlocking) path with
    | inl content =>
        (Returned content,
         record (readingLines env isBlocking
                 ++ [ReadFileSync path;
                     logLine SUCCESS
                       ("Read local hosts file ("
                        ++ Js.ofNat (String.length content) ++ " characters)")])
           w)
    | inr err =>
        let wrapped :=
          Error ("Failed to read hosts file at " ++ path ++ ": " ++ message err) in
        (Thrown wrapped,
         record (readingLines env isBlocking
                 ++ [ReadFileSync path;
                     errorLine ("Error reading local hosts file: "
                                ++ message wrapped)])
           w)
    end.
Proof.
  unfold SuspendChess.readLocalHostsFile, FileUtils.readLocalHostsFile,
    FileUtils.fsReadFileSync, SuspendChess.log, SuspendChess.logSuccess,
    SuspendChess.logError.
  cbn [FileUtils.configDir FileUtils.blockedFileName FileUtils.allowedFileName].
  rewrite !bind_emit. unfold tryCatch, bind, get, emit, modify, ret, throw.
  cbn [trace record app]. rewrite <- !app_assoc. cbn [app].
  change (pathJoin env (pathJoin env (cwd env) "config")
            (if isBlocking then SuspendChess.HOSTS_FILE_NAMES_BLOCKED
             else SuspendChess.HOSTS_FILE_NAMES_ALLOWED))
    with (hostsPath env isBlocking).
  unfold readingLines, logLine.
  destruct (readFileSync env _ (hostsPath env isBlocking)) as [content|err];
    cbn [message]; rewrite !record_record; reflexivity.
Qed.

Lemma establishSSHConnection_run (w : world) :
  SuspendChess.establishSSHConnection env w
  = match password (SSH_CONFIG w) with
    | EmptyString =>
        connectWith env
          (setPassword (answer env (trace w ++ [attemptLine w]))
             (record [attemptLine w; passwordPrompt w] w))
    | _ => connectWith env (record [attemptLine w] w)
    end.
Proof.
  unfold SuspendChess.establishSSHConnection, SuspendChess.promptPassword,
    SuspendChess.log, SuspendChess.logSuccess, SuspendChess.logError,
    connectWith, attemptLine, passwordPrompt, errorLine, logLine.
  destruct w as [[h u f pw] sent tr].
  unfold bind, get, emit, modify, ret, throw, record, setPassword.
  cbn [trace SSH_CONFIG host username password suspendChess headersSent].
  destruct pw as [|c pw];
    cbn [trace SSH_CONFIG host username password suspendChess headersSent];
    repeat rewrite <- app_assoc; cbn [app];
    match goal with |- context [connect env ?t] => destruct (connect env t) end;
    cbn [trace SSH_CONFIG host username password suspendChess headersSent
         message];
    repeat rewrite <- app_assoc; cbn [app]; reflexivity.
Qed.

(** X12: when the connection fails, by an error or by a time-out, the
    run throws (the error itself, or [SSH connection timeout]), logs
    the failure once, reads no file, runs no command, and ends the
    session. *)
Theorem connection_failure_aborts (w : world) :
  password (SSH_CONFIG w) <> EmptyString ->
  let attempt :=
    SshConnect (host (SSH_CONFIG w)) (username (SSH_CONFIG w))
      (password (SSH_CONFIG w)) in
  (forall err,
      connect env (trace w ++ [attemptLine w]) = ConnectError err ->
      SuspendChess.executeRemoteCommands env w
      = (Thrown err,
         record [attemptLine w; attempt;
                 errorLine ("SSH connection error: " ++ message err);
                 SshEnd] w)) /\
  (connect env (trace w ++ [attemptLine w]) = ConnectTimeout ->
   SuspendChess.executeRemoteCommands env w
   = (Thrown (Error "SSH connection timeout"),
      record [attemptLine w; attempt; errorLine "SSH connection timed out";
              SshEnd] w)).
Proof.
  intros Hp attempt.
  assert (E : SuspendChess.establishSSHConnection env w
              = connectWith env (record [attemptLine w] w)).
  { rewrite establishSSHConnection_run.
    destruct (password (SSH_CONFIG w)); [now elim Hp | reflexivity]. }
  split; [intros err Hc | intros Hc];
    unfold SuspendChess.executeRemoteCommands, SuspendChess.connectAndRead,
      tryFinally;
    unfold bind at 1; unfold bind at 1; rewrite E; unfold connectWith;
    cbn [trace record]; rewrite Hc;
    unfold emit, modify; rewrite !record_record; reflexivity.
Qed.

(** X13: when the local hosts file cannot be read, the run throws
    [Failed to read hosts file at <path>: <reason>], logs it, runs no
    remote command, and ends the session. *)
Theorem read_failure_aborts (w w1 : world) (err : jsError) :
  SuspendChess.establishSSHConnection env w = (Returned tt, w1) ->
  let isBlocking := suspendChess (SSH_CONFIG w1) in
  let path := hostsPath env isBlocking in
  readFileSync env (trace w1 ++ readingLines env isBlocking) path = inr err ->
  let wrapped :=
    Error ("Failed to read hosts file at " ++ path ++ ": " ++ message err) in
  let evs :=
    (readingLines env isBlocking
     ++ [ReadFileSync path;
         errorLine ("Error reading local hosts file: " ++ message wrapped);
         SshEnd])%list in
  SuspendChess.executeRemoteCommands env w = (Thrown wrapped, record evs w1) /\
  commandsOf evs = [].
Proof.
  intros He isBlocking path Hr wrapped evs. split; [|reflexivity].
  unfold SuspendChess.executeRemoteCommands, SuspendChess.connectAndRead,
    tryFinally.
  unfold bind at 1. unfold bind at 1. rewrite He.
  unfold bind at 1. unfold get at 1.
  rewrite readLocalHostsFile_run. fold isBlocking. cbv zeta. fold path.
  rewrite Hr. unfold emit, modify. rewrite record_record.
  subst evs wrapped. rewrite <- app_assoc. reflexivity.
Qed.

(** X14: with an empty configured password the user is asked once,
    before connecting; the answer is stored in [SSH_CONFIG], is the
    password handed to the SSH library, and is the password piped to
    [sudo] by the upload that follows. *)
Theorem typed_password_is_used (w : world) (hostsContent : string) :
  password (SSH_CONFIG w) = EmptyString ->
  let typed := answer env (trace w ++ [attemptLine w]) in
  let asked := setPassword typed (record [attemptLine w; passwordPrompt w] w) in
  connect env (trace asked) = Ready ->
  let connected :=
    record [SshConnect (host (SSH_CONFIG w)) (username (SSH_CONFIG w)) typed;
            logLine SUCCESS "SSH connection established"] asked in
  SuspendChess.establishSSHConnection env w = (Returned tt, connected) /\
  password (SSH_CONFIG connected) = typed /\
  exists rest,
    trace (snd (SuspendChess.uploadHostsFile env hostsContent connected))
    = (trace connected
       ++ SshExec (SuspendChess.buildCompleteUploadCommand typed hostsContent)
          :: rest)%list.
Proof.
  intros Hp typed asked Hc connected.
  split; [|split; [reflexivity|]].
  - rewrite establishSSHConnection_run, Hp. fold typed. fold asked.
    unfold connectWith. now rewrite Hc.
  - unfold SuspendChess.uploadHostsFile. unfold bind at 1. unfold get at 1.
    change (password (SSH_CONFIG connected)) with typed.
    set (command := SuspendChess.buildCompleteUploadCommand typed hostsContent).
    unfold bind at 1.
    destruct (exec env (trace connected) command)
      as [code output|output|err] eqn:He.
    + rewrite (executeCommand_closed env _ _ _ _ He). cbn [fst Js.strictEq].
      destruct (negb (code =? 0)%Z).
      * exists (outputLog output). reflexivity.
      * eexists. unfold SuspendChess.logSuccess, emit, modify.
        rewrite record_record. reflexivity.
    + rewrite (executeCommand_signalled env _ _ _ He).
      exists (outputLog output). reflexivity.
    + rewrite (executeCommand_failed env _ _ _ He). exists []. reflexivity.
Qed.

End MoreOrchestrator.

Lemma connection_failure_aborts_witness :
  SuspendChess.executeRemoteCommands MoreSample.offlineEnv Sample.sampleWorld
  = (Thrown (Error "SSH connection timeout"),
     record [attemptLine Sample.sampleWorld;
             SshConnect "192.168.0.10" "user" "password";
             errorLine "SSH connection timed out"; SshEnd] Sample.sampleWorld).
Proof.
  exact (proj2 (connection_failure_aborts MoreSample.offlineEnv
                  Sample.sampleWorld ltac:(discriminate)) eq_refl).
Defined.

Lemma read_failure_aborts_witness :
  fst (SuspendChess.executeRemoteCommands MoreSample.unreadableEnv
         Sample.sampleWorld)
  = Thrown (Error
      "Failed to read hosts file at /home/user/chess/config/hostsuncommented: ENOENT").
Proof.
  exact (f_equal fst
           (proj1 (read_failure_aborts MoreSample.unreadableEnv
                     Sample.sampleWorld
                     (snd (SuspendChess.establishSSHConnection
                             MoreSample.unreadableEnv Sample.sampleWorld))
                     (Error "ENOENT") eq_refl eq_refl))).
Defined.

Lemma typed_password_is_used_witness :
  password
    (SSH_CONFIG
       (snd (SuspendChess.establishSSHConnection (Sample.sampleEnv 0 0 [])
               (setPassword EmptyString Sample.sampleWorld))))
  = "secret".
Proof.
  destruct (typed_password_is_used (Sample.sampleEnv 0 0 [])
              (setPassword EmptyString Sample.sampleWorld) "127.0.0.1 lichess.org"
              eq_refl eq_refl) as (E & _ & _).
  rewrite E. reflexivity.
Defined.

(** ** The time display and the countdown *)

Section Timer.

(** X9: for a whole number of seconds from zero to
    [Number.MAX_SAFE_INTEGER], [formatTime] shows hours, minutes and
    seconds that add up to the seconds given, minutes and seconds below
    60; the hours are shown from one hour on, the minutes from one
    minute on. *)
Theorem formatTime_adds_up (seconds : Z) :
  (0 <= seconds <= SuspendChessCli.MAX_SAFE_INTEGER)%Z ->
  exists h m s : Z,
    (seconds = h * 3600 + m * 60 + s)%Z /\
    (0 <= h)%Z /\ (0 <= m < 60)%Z /\ (0 <= s < 60)%Z /\
    SuspendChessCli.formatTime seconds
    = if (3600 <=? seconds)%Z then
        Js.ofInt h ++ "h " ++ Js.ofInt m ++ "m " ++ Js.ofInt s ++ "s"
      else if (60 <=? seconds)%Z then
        Js.ofInt m ++ "m " ++ Js.ofInt s ++ "s"
      else Js.ofInt s ++ "s".
Proof.
  intros [Hs _].
  exists (seconds / 3600)%Z, (Z.rem seconds 3600 / 60)%Z, (Z.rem seconds 60).
  rewrite !Z.rem_mod_nonneg by lia.
  assert (H1 : (seconds = seconds / 3600 * 3600
                          + (seconds mod 3600) / 60 * 60 + seconds mod 60)%Z)
    by (Z.div_mod_to_equations; lia).
  assert (H2 : (0 <= seconds / 3600)%Z) by (Z.div_mod_to_equations; lia).
  assert (H3 : (0 <= (seconds mod 3600) / 60 < 60)%Z)
    by (Z.div_mod_to_equations; lia).
  assert (H4 : (0 <= seconds mod 60 < 60)%Z) by (Z.div_mod_to_equations; lia).
  repeat (split; [assumption|]).
  unfold SuspendChessCli.formatTime. cbv zeta.
  rewrite !Z.rem_mod_nonneg by lia.
  replace (0 <? seconds / 3600)%Z with (3600 <=? seconds)%Z.
  2: { destruct (Z.leb_spec 3600 seconds), (Z.ltb_spec 0 (seconds / 3600));
       try reflexivity; Z.div_mod_to_equations; lia. }
  destruct (Z.leb_spec 3600 seconds) as [L|L]; [reflexivity|].
  replace (0 <? seconds mod 3600 / 60)%Z with (60 <=? seconds)%Z; [reflexivity|].
  destruct (Z.leb_spec 60 seconds), (Z.ltb_spec 0 (seconds mod 3600 / 60));
    try reflexivity; Z.div_mod_to_equations; lia.
Qed.

Lemma progressEvents_step (elapsed total : Z) (emoji : glyph) (n : nat) :
  progressEvents elapsed total emoji (S n)
  = TimerProgress (elapsed + 2) total emoji
    :: progressEvents (elapsed + 2) total emoji n.
Proof.
  unfold progressEvents. cbn [seq map].
  f_equal. rewrite <- seq_shift, map_map. apply map_ext.
  intros k. f_equal. lia.
Qed.

(** The countdown from [elapsed]: with enough fuel for the ticks that
    are left, it shows progress at every tick but the last and then
    completes. *)
Lemma timerTicks_run (action : string) (emoji : glyph) (total : Z) :
  forall (fuel : nat) (elapsed : Z) (w : world),
    (1 <= fuel)%nat ->
    (total - elapsed <= 2 * Z.of_nat fuel)%Z ->
    SuspendChess.timerTicks fuel elapsed total action emoji w
    = (Returned tt,
       record (progressEvents elapsed total emoji
                 (Z.to_nat ((total - elapsed + 1) / 2 - 1))
               ++ [clearLineEvent; timerCompletedLine action]) w).
Proof.
  induction fuel as [|fuel IH]; intros elapsed w Hf Ht; [lia|].
  cbn [SuspendChess.timerTicks]. cbv zeta.
  change (SuspendChess.updateIntervalSeconds SuspendChess.TIMER_CONFIG) with 2%Z.
  destruct (Z.leb_spec (total - (elapsed + 2)) 0) as [L|L].
  - replace (Z.to_nat ((total - elapsed + 1) / 2 - 1)) with 0%nat
      by (Z.div_mod_to_equations; lia).
    unfold SuspendChess.clearLine, SuspendChess.log.
    rewrite bind_emit. unfold emit, modify. now rewrite record_record.
  - rewrite bind_emit, IH by lia. rewrite record_record.
    replace (Z.to_nat ((total - elapsed + 1) / 2 - 1))
      with (S (Z.to_nat ((total - (elapsed + 2) + 1) / 2 - 1)))
      by (Z.div_mod_to_equations; lia).
    now rewrite progressEvents_step.
Qed.

(** X10: the countdown always ends: for every waiting time, positive
    or not, the fuel [startTimer] gives is enough; the timer shows one
    progress line every two seconds before the last tick and then
    reports completion. *)
Theorem countdown_completes
    (action : string) (emoji : glyph) (total : Z) (w : world) :
  SuspendChess.timerTicks (S (Z.to_nat total)) 0 total action emoji w
  = (Returned tt,
     record (progressEvents 0 total emoji (Z.to_nat ((total + 1) / 2 - 1))
             ++ [clearLineEvent; timerCompletedLine action]) w) /\
  (total <= 2 -> Z.to_nat ((total + 1) / 2 - 1) = 0%nat)%Z /\
  (2 < total -> 2 * Z.of_nat (Z.to_nat ((total + 1) / 2 - 1)) < total
                <= 2 * Z.of_nat (Z.to_nat ((total + 1) / 2 - 1)) + 2)%Z.
Proof.
  split; [|split].
  - rewrite timerTicks_run by lia. now rewrite Z.sub_0_r.
  - intros H. Z.div_mod_to_equations; lia.
  - intros H. Z.div_mod_to_equations; lia.
Qed.

End Timer.

Lemma formatTime_adds_up_witness :
  exists h m s : Z,
    (3725 = h * 3600 + m * 60 + s)%Z /\
    (0 <= h)%Z /\ (0 <= m < 60)%Z /\ (0 <= s < 60)%Z /\
    SuspendChessCli.formatTime 3725
    = Js.ofInt h ++ "h " ++ Js.ofInt m ++ "m " ++ Js.ofInt s ++ "s".
Proof.
  exact (formatTime_adds_up 3725
           ltac:(unfold SuspendChessCli.MAX_SAFE_INTEGER; lia)).
Defined.

Example formatTime_samples :
  SuspendChessCli.formatTime 3725 = "1h 2m 5s" /\
  SuspendChessCli.formatTime 3600 = "1h 0m 0s" /\
  SuspendChessCli.formatTime 125 = "2m 5s" /\
  SuspendChessCli.formatTime 59 = "59s" /\
  SuspendChessCli.formatTime 0 = "0s".
Proof. repeat split. Qed.

Lemma countdown_completes_witness :
  Z.to_nat ((1 + 1) / 2 - 1) = 0%nat /\
  (2 * Z.of_nat (Z.to_nat ((7 + 1) / 2 - 1)) < 7
   <= 2 * Z.of_nat (Z.to_nat ((7 + 1) / 2 - 1)) + 2)%Z.
Proof.
  split.
  - exact (proj1 (proj2 (countdown_completes "blocking" BLOCK 1
                           Sample.sampleWorld)) ltac:(lia)).
  - exact (proj2 (proj2 (countdown_completes "blocking" BLOCK 7
                           Sample.sampleWorld)) ltac:(lia)).
Defined.

Example countdown_of_seven_seconds :
  added (SuspendChess.timerTicks 8 0 7 "blocking" BLOCK) Sample.sampleWorld
  = [TimerProgress 2 7 BLOCK; TimerProgress 4 7 BLOCK; TimerProgress 6 7 BLOCK;
     clearLineEvent; timerCompletedLine "blocking"].
Proof. reflexivity. Qed.

(** ** The whole run and the command line *)

Section WholeRun.
Variable env : Env.

(** The [try] block of [suspendChess]: the lines before the
    connection, the remote steps, and one closing line. *)
Lemma suspendChessBody_run (w : world) :
  SuspendChess.suspendChessBody env w
  = match SuspendChess.executeRemoteCommands env
            (record (preRunLines (suspendChess (SSH_CONFIG w)) w) w) with
    | (Returned _, w3) =>
        (Returned true,
         record [logLine SPARKLES "Script completed successfully!"] w3)
    | (Thrown e, w3) => (Thrown e, w3)
    | (Pending, w3) => (Pending, w3)
    end.
Proof.
  unfold SuspendChess.suspendChessBody.
  destruct w as [[h u f pw] sent tr].
  unfold bind at 1. unfold SuspendChess.log at 1, emit at 1, modify at 1.
  unfold bind at 1. unfold get at 1.
  cbn [SSH_CONFIG suspendChess record].
  unfold bind at 1.
  replace (SuspendChess.logScriptMode f)
    with (emit (if f
                then logLine BLOCK
                       "Mode: BLOCKING chess sites (lichess.org will be blocked)"
                else logLine SUCCESS
                       "Mode: ALLOWING chess sites (lichess.org will be accessible)"))
    by now destruct f.
  unfold emit at 1, modify at 1.
  unfold bind at 1. unfold SuspendChess.log at 1, emit at 1, modify at 1.
  unfold bind at 1. unfold get at 1.
  cbn [SSH_CONFIG suspendChess record].
  rewrite startTimer_first_tick.
  unfold bind at 1. unfold bind at 1.
  unfold SuspendChess.log at 1, emit at 1, modify at 1.
  unfold bind at 1. unfold SuspendChess.log at 1, emit at 1, modify at 1.
  unfold bind at 1. unfold SuspendChess.clearLine at 1, emit at 1, modify at 1.
  unfold SuspendChess.log at 1, emit at 1, modify at 1.
  unfold bind at 1. unfold get at 1.
  unfold bind at 1. unfold SuspendChess.log at 1, emit at 1, modify at 1.
  unfold bind at 1.
  unfold record, preRunLines, logLine, clearLineEvent, timerCompletedLine.
  cbn [SSH_CONFIG suspendChess host username password headersSent trace
       SuspendChess.getTimerAction fst].
  repeat rewrite <- app_assoc. cbn [app].
  replace (fst (SuspendChess.getTimerAction f))
    with (if f then "blocking" else "unblocking") by now destruct f.
  match goal with
  | |- ?L = match SuspendChess.executeRemoteCommands env ?w2 with _ => _ end =>
      match L with
      | context [SuspendChess.executeRemoteCommands env ?w1] =>
          change w1 with w2;
          destruct (SuspendChess.executeRemoteCommands env w2) as [[v|e|] w3]
      end
  end; reflexivity.
Qed.

Lemma suspendChess_run (shouldBlock : option bool) (w : world) :
  let original := suspendChess (SSH_CONFIG w) in
  let mode := match shouldBlock with Some b => b | None => original end in
  let started := record (preRunLines mode w) (setSuspendChess mode w) in
  let remote := SuspendChess.executeRemoteCommands env started in
  SuspendChess.suspendChess env shouldBlock w
  = match fst remote with
    | Returned _ =>
        (Returned true,
         setSuspendChess original
           (record [logLine SPARKLES "Script completed successfully!"]
              (snd remote)))
    | Thrown e =>
        (Thrown e,
         setSuspendChess original
           (record [errorLine ("Script failed: " ++ message e)] (snd remote)))
    | Pending => (Pending, snd remote)
    end.
Proof.
  intros original mode started remote.
  rewrite suspendChess_unfold. unfold guarded, tryCatch.
  rewrite suspendChessBody_run.
  change (modeOf shouldBlock w) with mode.
  change (record (preRunLines (suspendChess (SSH_CONFIG (setSuspendChess mode w)))
                    (setSuspendChess mode w)) (setSuspendChess mode w))
    with started.
  fold remote. fold original.
  destruct remote as [[v|e|] w3]; reflexivity.
Qed.

(** What [parseCommandLineArgs] answers and prints. *)
Lemma parseCommandLineArgs_run (args : list string) (w : world) :
  SuspendChessCli.parseCommandLineArgs args w
  = match args with
    | [] => (Returned (Some (suspendChess (SSH_CONFIG w))), w)
    | [arg] =>
        if String.eqb (Js.toLowerCase arg) "block" then (Returned (Some true), w)
        else if String.eqb (Js.toLowerCase arg) "allow"
        then (Returned (Some false), w)
        else (Returned None,
              record [errorLine ("Invalid argument: " ++ Js.toLowerCase arg)] w)
    | _ => (Returned None, record [errorLine "Too many arguments"] w)
    end.
Proof.
  destruct args as [|arg [|arg2 rest]]; try reflexivity.
  cbn [SuspendChessCli.parseCommandLineArgs]. cbv zeta.
  unfold SuspendChessCli.COMMAND_LINE_ARGS_BLOCK,
    SuspendChessCli.COMMAND_LINE_ARGS_ALLOW.
  destruct (String.eqb (Js.toLowerCase arg) "block"); [reflexivity|].
  destruct (String.eqb (Js.toLowerCase arg) "allow"); reflexivity.
Qed.

Lemma displayUsage_run (w : world) (msg : string) :
  SuspendChessCli.displayUsage (record [errorLine msg] w)
  = (Returned tt, record (usageLines msg) w).
Proof.
  unfold SuspendChessCli.displayUsage, SuspendChess.logError, bind, emit, modify.
  now rewrite !record_record.
Qed.

Lemma requested_dec (args : list string) (flag : bool) :
  (exists b, requested args flag b) \/ (forall b, ~ requested args flag b).
Proof.
  destruct args as [|arg [|arg2 rest]].
  - left. exists flag. now left.
  - destruct (String.eqb_spec (Js.toLowerCase arg) "block") as [Eb|Nb].
    { left. exists true. right. now exists arg. }
    destruct (String.eqb_spec (Js.toLowerCase arg) "allow") as [Ea|Na].
    { left. exists false. right. now exists arg. }
    right. intros b [[H _]|(a & H & E)]; [discriminate|].
    injection H as <-. destruct b; congruence.
  - right. intros b [[H _]|(a & H & _)]; discriminate.
Qed.

Lemma requested_unique (args : list string) (flag b1 b2 : bool) :
  requested args flag b1 -> requested args flag b2 -> b1 = b2.
Proof.
  intros [[H1 E1]|(a1 & H1 & E1)] [[H2 E2]|(a2 & H2 & E2)]; subst;
    try discriminate; [reflexivity|].
  injection H2 as <-. destruct b1, b2; congruence.
Qed.

Lemma main_requested (argv : list string) (w : world) (b : bool) :
  requested (skipn 2 argv) (suspendChess (SSH_CONFIG w)) b ->
  SuspendChessCli.main env argv w
  = match SuspendChess.suspendChess env (Some b) w with
    | (Returned _, w') => (Returned 0%Z, w')
    | (Thrown e, w') =>
        (Returned 1%Z, record [errorLine ("Script failed: " ++ message e)] w')
    | (Pending, w') => (Pending, w')
    end.
Proof.
  intros Hr. unfold SuspendChessCli.main, tryCatch. cbv zeta.
  unfold bind at 1. rewrite parseCommandLineArgs_run.
  assert (E : match skipn 2 argv with
              | [] => (Returned (Some (suspendChess (SSH_CONFIG w))), w)
              | [arg] =>
                  if String.eqb (Js.toLowerCase arg) "block"
                  then (Returned (Some true), w)
                  else if String.eqb (Js.toLowerCase arg) "allow"
                  then (Returned (Some false), w)
                  else (Returned None,
                        record [errorLine ("Invalid argument: "
                                           ++ Js.toLowerCase arg)] w)
              | _ => (Returned None, record [errorLine "Too many arguments"] w)
              end = (Returned (Some b), w)).
  { destruct Hr as [[-> ->]|(arg & -> & E)]; [reflexivity|].
    rewrite E. now destruct b. }
  rewrite E. unfold bind.
  destruct (SuspendChess.suspendChess env (Some b) w) as [[v|e|] w'];
    reflexivity.
Qed.

Lemma main_usage (argv : list string) (w : world) :
  (forall b, ~ requested (skipn 2 argv) (suspendChess (SSH_CONFIG w)) b) ->
  exists msg,
    SuspendChessCli.main env argv w = (Returned 1%Z, record (usageLines msg) w).
Proof.
  intros Hn. unfold SuspendChessCli.main, tryCatch. cbv zeta.
  unfold bind at 1. rewrite parseCommandLineArgs_run.
  destruct (skipn 2 argv) as [|arg [|arg2 rest]].
  - elim (Hn (suspendChess (SSH_CONFIG w))). now left.
  - destruct (String.eqb_spec (Js.toLowerCase arg) "block") as [Eb|Nb].
    { elim (Hn true). right. now exists arg. }
    destruct (String.eqb_spec (Js.toLowerCase arg) "allow") as [Ea|Na].
    { elim (Hn false). right. now exists arg. }
    exists ("Invalid argument: " ++ Js.toLowerCase arg).
    unfold bind at 1. now rewrite displayUsage_run.
  - exists "Too many arguments".
    unfold bind at 1. now rewrite displayUsage_run.
Qed.

(** X11: what the command-line entry point hands to [process.exit].
    Arguments that ask for no mode (an unknown word, or more than one
    argument) give a usage error: five lines on the error stream,
    nothing else (no connection, no file read), and code 1.  Arguments
    that ask for a mode (none: the configured default; one: [block] or
    [allow] in any letter case) start the run in that mode; when the
    run resolves the code is 0, and when it rejects the error is
    reported a second time, after the report of [suspendChess] itself,
    and the code is 1.  (A countdown cancelled from the keyboard ends
    the process inside [startTimer]; such a run never comes back to
    [main] and is no run of this model.) *)
Theorem main_exit_code (argv : list string) (w : world) :
  let args := skipn 2 argv in
  let flag := suspendChess (SSH_CONFIG w) in
  ((forall b, ~ requested args flag b) ->
   exists msg,
     SuspendChessCli.main env argv w = (Returned 1%Z, record (usageLines msg) w)) /\
  (forall b v w',
      requested args flag b ->
      SuspendChess.suspendChess env (Some b) w = (Returned v, w') ->
      SuspendChessCli.main env argv w = (Returned 0%Z, w')) /\
  (forall b e w',
      requested args flag b ->
      SuspendChess.suspendChess env (Some b) w = (Thrown e, w') ->
      SuspendChessCli.main env argv w
      = (Returned 1%Z, record [errorLine ("Script failed: " ++ message e)] w') /\
      exists evs,
        trace w'
        = (trace w ++ evs
           ++ [SshEnd; errorLine ("Script failed: " ++ message e)])%list).
Proof.
  intros args flag.
  split; [|split].
  - apply main_usage.
  - intros b v w' Hb Hr. rewrite (main_requested argv w b Hb). now rewrite Hr.
  - intros b e w' Hb Hr. rewrite (main_requested argv w b Hb).
    split; [now rewrite Hr|].
    pose proof (suspendChess_run (Some b) w) as R. cbv zeta in R.
    destruct (executeRemoteCommands_ends_session env
                (record (preRunLines b w) (setSuspendChess b w)))
      as (_ & evs & Ht & _).
    rewrite R in Hr.
    destruct (SuspendChess.executeRemoteCommands env
                (record (preRunLines b w) (setSuspendChess b w)))
      as [[v|e'|] w3]; cbn [fst snd] in *; try discriminate.
    injection Hr as -> <-.
    exists (preRunLines b w ++ evs)%list.
    cbn [trace record setSuspendChess]. rewrite Ht.
    cbn [trace record setSuspendChess]. rewrite <- !app_assoc. reflexivity.
Qed.

End WholeRun.

Lemma main_exit_code_witness :
  (exists msg,
      SuspendChessCli.main (Sample.sampleEnv 0 0 [])
        ["node"; "suspend-chess.js"; "block"; "now"] Sample.sampleWorld
      = (Returned 1%Z, record (usageLines msg) Sample.sampleWorld)) /\
  fst (SuspendChessCli.main (Sample.sampleEnv 0 0 [])
         ["node"; "suspend-chess.js"; "Block"] Sample.sampleWorld)
  = Returned 0%Z /\
  fst (SuspendChessCli.main (Sample.sampleEnv 2 0 [])
         ["node"; "suspend-chess.js"; "ALLOW"] Sample.sampleWorld)
  = Returned 1%Z.
Proof.
  split; [|split].
  - apply (proj1 (main_exit_code (Sample.sampleEnv 0 0 [])
                    ["node"; "suspend-chess.js"; "block"; "now"]
                    Sample.sampleWorld)).
    intros b [[H _]|(a & H & _)]; discriminate H.
  - exact (f_equal fst
             (proj1 (proj2 (main_exit_code (Sample.sampleEnv 0 0 [])
                              ["node"; "suspend-chess.js"; "Block"]
                              Sample.sampleWorld))
                true true _
                (or_intror (ex_intro _ "Block" (conj eq_refl eq_refl)))
                eq_refl)).
  - exact (f_equal fst
             (proj1 (proj2 (proj2 (main_exit_code (Sample.sampleEnv 2 0 [])
                                     ["node"; "suspend-chess.js"; "ALLOW"]
                                     Sample.sampleWorld))
                       false (Error "Upload failed with exit code 2") _
                       (or_intror (ex_intro _ "ALLOW" (conj eq_refl eq_refl)))
                       eq_refl))).
Defined.

Example main_samples :
  fst (SuspendChessCli.main (Sample.sampleEnv 0 1 [])
         ["node"; "suspend-chess.js"] Sample.sampleWorld) = Returned 0%Z /\
  fst (SuspendChessCli.main (Sample.sampleEnv 0 1 [])
         ["node"; "suspend-chess.js"; "Block"] Sample.sampleWorld) = Returned 0%Z /\
  fst (SuspendChessCli.main (Sample.sampleEnv 0 1 [])
         ["node"; "suspend-chess.js"; "stop"] Sample.sampleWorld) = Returned 1%Z /\
  fst (SuspendChessCli.main MoreSample.offlineEnv
         ["node"; "suspend-chess.js"; "allow"] Sample.sampleWorld) = Returned 1%Z.
Proof. vm_compute. repeat split. Qed.

(** ** The subscription front-end *)

Section Subscriber.
Variable env : Env.
Variable toLocaleString : option NtfySubscriber.json -> string.
Variable CLIPBOARD : piece.
Variable jsonParse : string -> NtfySubscriber.json + jsError.
Variable typeError : string -> option NtfySubscriber.json -> jsError.

Abbreviation handleNotification :=
  (NtfySubscriber.handleNotification env toLocaleString CLIPBOARD typeError).
Abbreviation processLine :=
  (NtfySubscriber.processLine env toLocaleString CLIPBOARD jsonParse typeError).
Abbreviation processLines :=
  (NtfySubscriber.processLines env toLocaleString CLIPBOARD jsonParse typeError).
Abbreviation processChunk :=
  (NtfySubscriber.processChunk env toLocaleString CLIPBOARD jsonParse typeError).
Abbreviation readLoop :=
  (NtfySubscriber.readLoop env toLocaleString CLIPBOARD jsonParse typeError).

Lemma steady_ret {A} (a : A) : steady (ret a).
Proof.
  intros w. exists a, w. repeat split. exists []. now rewrite app_nil_r.
Qed.

Lemma steady_emit (ev : event) : steady (emit ev).
Proof.
  intros w. exists tt, (record [ev] w). repeat split. now exists [ev].
Qed.

Lemma steady_bind {A B} (m : M A) (k : A -> M B) :
  steady m -> (forall a, steady (k a)) -> steady (bind m k).
Proof.
  intros Hm Hk w. unfold bind.
  destruct (Hm w) as (a & w1 & E & Hf & evs & Ht). rewrite E.
  destruct (Hk a w1) as (c & w2 & E' & Hf' & evs' & Ht'). rewrite E'.
  exists c, w2. split; [reflexivity|]. split; [congruence|].
  exists (evs ++ evs')%list. now rewrite Ht', Ht, app_assoc.
Qed.

(** A [try] whose body settles and whose handler returns. *)
Lemma steady_tryCatch {A} (body : M A) (handler : jsError -> M A) :
  orderly body ->
  (forall e, steady (handler e)) ->
  steady (tryCatch body handler).
Proof.
  intros Hm Hk w. unfold tryCatch.
  destruct (Hm w) as (Hs & Hf & evs & Ht).
  destruct (body w) as [[a|e|] w1]; cbn [fst snd] in *.
  - exists a, w1. repeat split; [exact Hf | now exists evs].
  - destruct (Hk e w1) as (c & w2 & E' & Hf' & evs' & Ht'). rewrite E'.
    exists c, w2. split; [reflexivity|]. split; [congruence|].
    exists (evs ++ evs')%list. now rewrite Ht', Ht, app_assoc.
  - now elim Hs.
Qed.

Lemma steady_orderly {A} (m : M A) : steady m -> orderly m.
Proof.
  intros H w. destruct (H w) as (a & w' & E & Hf & Ht). rewrite E.
  repeat split; [discriminate | exact Hf | exact Ht].
Qed.

Lemma steady_failsEarly {A} (m : M A) : steady m -> failsEarly m.
Proof.
  intros H w e w' E. destruct (H w) as (a & w1 & E1 & _).
  rewrite E1 in E. discriminate E.
Qed.

Lemma orderly_bind {A B} (m : M A) (k : A -> M B) :
  orderly m -> (forall a, orderly (k a)) -> orderly (bind m k).
Proof.
  intros Hm Hk w. unfold bind.
  destruct (Hm w) as (Hs & Hf & evs & Ht).
  destruct (m w) as [[a|e|] w1]; cbn [fst snd] in *.
  - destruct (Hk a w1) as (Hs' & Hf' & evs' & Ht').
    split; [exact Hs'|]. split; [congruence|].
    exists (evs ++ evs')%list. now rewrite Ht', Ht, app_assoc.
  - split; [discriminate|]. split; [exact Hf|]. now exists evs.
  - now elim Hs.
Qed.

Lemma printsOnly_orderly {A} (m : M A) : printsOnly m -> orderly m.
Proof.
  intros H w. destruct (H w) as (Hs & evs & E & _).
  split; [exact Hs|]. rewrite E. split; [reflexivity|]. now exists evs.
Qed.

Lemma effectFree_printsOnly {A} (m : M A) : effectFree m -> printsOnly m.
Proof.
  intros H w. destruct (H w) as (E & Hs). split; [exact Hs|].
  exists []. rewrite record_nil. split; [exact E | constructor].
Qed.

Lemma printsOnly_emit (ev : event) :
  isConsole ev = true -> printsOnly (emit ev).
Proof.
  intros H w. split; [discriminate|]. exists [ev].
  split; [reflexivity | now constructor].
Qed.

Lemma printsOnly_bind {A B} (m : M A) (k : A -> M B) :
  printsOnly m -> (forall a, printsOnly (k a)) -> printsOnly (bind m k).
Proof.
  intros Hm Hk w. unfold bind.
  destruct (Hm w) as (Hs & evs & E & Hc).
  destruct (m w) as [[a|e|] w1]; cbn [fst snd] in *; subst w1.
  - destruct (Hk a (record evs w)) as (Hs' & evs' & E' & Hc').
    split; [exact Hs'|]. exists (evs ++ evs')%list.
    rewrite E', record_record. split; [reflexivity|].
    apply Forall_app. now split.
  - split; [discriminate|]. now exists evs.
  - now elim Hs.
Qed.

Lemma failsEarly_bind {A B} (m : M A) (k : A -> M B) :
  printsOnly m -> (forall a, failsEarly (k a)) -> failsEarly (bind m k).
Proof.
  intros Hm Hk w e w' E. unfold bind in E.
  destruct (Hm w) as (Hs & evs & Ew & Hc).
  destruct (m w) as [[a|e1|] w1]; cbn [fst snd] in *; subst w1.
  - destruct (Hk a _ _ _ E) as (evs' & -> & Hc').
    exists (evs ++ evs')%list. rewrite record_record.
    split; [reflexivity|]. apply Forall_app. now split.
  - injection E as _ <-. now exists evs.
  - now elim Hs.
Qed.

Lemma effectFree_ret {A} (a : A) : effectFree (ret a).
Proof. intros w. split; [reflexivity | discriminate]. Qed.

Lemma effectFree_throw {A} (e : jsError) : effectFree (@throw A e).
Proof. intros w. split; [reflexivity | discriminate]. Qed.

Lemma effectFree_bind {A B} (m : M A) (k : A -> M B) :
  effectFree m -> (forall a, effectFree (k a)) -> effectFree (bind m k).
Proof.
  intros Hm Hk w. unfold bind. destruct (Hm w) as (E & Hs).
  destruct (m w) as [[a|e|] w1]; cbn [fst snd] in *; subst w1.
  - apply Hk.
  - split; [reflexivity | discriminate].
  - now elim Hs.
Qed.

Lemma effectFree_settle {A} (result : A + jsError) :
  effectFree (NtfySubscriber.settle result).
Proof.
  destruct result; [apply effectFree_ret | apply effectFree_throw].
Qed.

Ltac effectFree_step :=
  match goal with
  | |- effectFree (bind _ _) => apply effectFree_bind; [|intro]
  | |- effectFree (ret _) => apply effectFree_ret
  | |- effectFree (throw _) => apply effectFree_throw
  | |- effectFree (NtfySubscriber.settle _) => apply effectFree_settle
  | |- effectFree (match ?x with _ => _ end) => destruct x
  end.

Lemma effectFree_read (notification : NtfySubscriber.json) (key : string) :
  effectFree (NtfySubscriber.read typeError notification key).
Proof. unfold NtfySubscriber.read. repeat effectFree_step. Qed.

Lemma effectFree_interpolate (value : option NtfySubscriber.json) :
  effectFree (NtfySubscriber.interpolate typeError value).
Proof. unfold NtfySubscriber.interpolate. repeat effectFree_step. Qed.

Lemma effectFree_orElse (fallback : string)
    (value : option NtfySubscriber.json) :
  effectFree (NtfySubscriber.orElse typeError fallback value).
Proof.
  unfold NtfySubscriber.orElse.
  destruct (NtfySubscriber.truthy value);
    [apply effectFree_interpolate | apply effectFree_ret].
Qed.

Lemma effectFree_timeText (time : option NtfySubscriber.json) :
  effectFree (NtfySubscriber.timeText toLocaleString typeError time).
Proof.
  unfold NtfySubscriber.timeText.
  apply effectFree_bind; [apply effectFree_interpolate|].
  intros _. apply effectFree_ret.
Qed.

Lemma effectFree_tagsText (tags : option NtfySubscriber.json) :
  effectFree (NtfySubscriber.tagsText typeError tags).
Proof. unfold NtfySubscriber.tagsText. repeat effectFree_step. Qed.

Lemma effectFree_tagStrings (items : list NtfySubscriber.json) :
  effectFree (NtfySubscriber.tagStrings typeError items).
Proof.
  induction items as [|item rest IH]; cbn [NtfySubscriber.tagStrings].
  - apply effectFree_ret.
  - destruct item; try apply effectFree_throw.
    apply effectFree_bind; [exact IH | intro; apply effectFree_ret].
Qed.

Lemma effectFree_parseChessCommandOn
    (message tags : option NtfySubscriber.json) :
  effectFree (NtfySubscriber.parseChessCommandOn typeError message tags).
Proof.
  unfold NtfySubscriber.parseChessCommandOn, NtfySubscriber.messageArgument,
    NtfySubscriber.tagsArgument.
  apply effectFree_bind; [repeat effectFree_step|]. intros m.
  apply effectFree_bind; [|intro; apply effectFree_ret].
  destruct tags as [[| | | |items|]|];
    try (destruct (NtfySubscriber.truthy _);
         [apply effectFree_throw | apply effectFree_ret]).
  apply effectFree_bind; [apply effectFree_tagStrings|].
  intro. apply effectFree_ret.
Qed.

Ltac steady_step :=
  match goal with
  | |- steady (bind _ _) => apply steady_bind; [|intro]
  | |- steady (emit _) => apply steady_emit
  | |- steady (ret _) => apply steady_ret
  | |- steady (match ?x with _ => _ end) => destruct x
  end.

(** Once the command is parsed nothing can make the handler throw: a
    failed run is logged. *)
Lemma steady_runCommand (shouldBlock : option bool) :
  steady (NtfySubscriber.runCommand env CLIPBOARD shouldBlock).
Proof.
  unfold NtfySubscriber.runCommand.
  repeat steady_step.
  apply steady_tryCatch; [|intro; apply steady_emit].
  intros w. unfold bind.
  destruct (suspendChess_effects env (fun _ => True) (fun _ _ => I) I
              (Some b) w I) as (Hs & Hf & _ & evs & Ht & _).
  destruct (SuspendChess.suspendChess env (Some b) w) as [[v|e|] w1];
    cbn [fst snd] in *; [| |now elim Hs].
  - split; [discriminate|]. split; [exact Hf|].
    exists (evs ++ [ConsoleLog [Glyph SUCCESS;
                                Text " Command completed successfully!"]])%list.
    cbn. now rewrite Ht, app_assoc.
  - split; [discriminate|]. split; [exact Hf|]. now exists evs.
Qed.

Ltac reading_step :=
  match goal with
  | |- printsOnly (emit _) => apply printsOnly_emit; reflexivity
  | |- printsOnly (NtfySubscriber.read _ _ _) =>
      apply effectFree_printsOnly, effectFree_read
  | |- printsOnly (NtfySubscriber.interpolate _ _) =>
      apply effectFree_printsOnly, effectFree_interpolate
  | |- printsOnly (NtfySubscriber.orElse _ _ _) =>
      apply effectFree_printsOnly, effectFree_orElse
  | |- printsOnly (NtfySubscriber.timeText _ _ _) =>
      apply effectFree_printsOnly, effectFree_timeText
  | |- printsOnly (NtfySubscriber.tagsText _ _) =>
      apply effectFree_printsOnly, effectFree_tagsText
  | |- printsOnly (NtfySubscriber.parseChessCommandOn _ _ _) =>
      apply effectFree_printsOnly, effectFree_parseChessCommandOn
  end.

Lemma orderly_handleNotification (notification : NtfySubscriber.json) :
  orderly (handleNotification notification).
Proof.
  unfold NtfySubscriber.handleNotification.
  apply orderly_bind; [apply printsOnly_orderly; reading_step|]. intros event.
  destruct (NtfySubscriber.isKeepalive event);
    [apply steady_orderly, steady_ret|].
  repeat (apply orderly_bind; [apply printsOnly_orderly; reading_step|]; intro).
  apply steady_orderly, steady_runCommand.
Qed.

Lemma failsEarly_handleNotification (notification : NtfySubscriber.json) :
  failsEarly (handleNotification notification).
Proof.
  unfold NtfySubscriber.handleNotification.
  apply failsEarly_bind; [reading_step|]. intros event.
  destruct (NtfySubscriber.isKeepalive event);
    [apply steady_failsEarly, steady_ret|].
  repeat (apply failsEarly_bind; [reading_step|]; intro).
  apply steady_failsEarly, steady_runCommand.
Qed.

Lemma steady_processLine (line : string) : steady (processLine line).
Proof.
  unfold NtfySubscriber.processLine.
  destruct (Js.trim line); [apply steady_ret|].
  apply steady_tryCatch; [|intro; apply steady_emit].
  apply orderly_bind;
    [|intro; apply orderly_handleNotification].
  apply printsOnly_orderly, effectFree_printsOnly, effectFree_settle.
Qed.

Lemma steady_processLines (lines : list string) : steady (processLines lines).
Proof.
  induction lines as [|line rest IH]; cbn [NtfySubscriber.processLines].
  - apply steady_ret.
  - apply steady_bind; [apply steady_processLine | intros _; exact IH].
Qed.

Lemma steady_processChunk (buffer chunk : string) :
  steady (processChunk buffer chunk).
Proof.
  unfold NtfySubscriber.processChunk, NtfySubscriber.popLast.
  apply steady_bind; [apply steady_processLines | intros _; apply steady_ret].
Qed.

Lemma steady_readLoop (chunks : list string) :
  forall buffer, steady (readLoop chunks buffer).
Proof.
  induction chunks as [|chunk rest IH]; intros buffer.
  - apply steady_ret.
  - cbn [NtfySubscriber.readLoop].
    apply steady_bind; [apply steady_processChunk | intros b; exact (IH b)].
Qed.

(** X16: nothing the read loop reads can make it throw.  Whatever the
    chunks and whatever value a line parses to, no error leaves the
    loop; when the loop is through, the default-mode flag is as before
    and the trace has only grown.  A keep-alive notification has no
    effect at all.  The handler itself does throw on a value it cannot
    read ([null] at once, and before anything is printed), but only
    before it runs the command: all it has done by then is print on the
    console, and the error of a failed command never leaves it. *)
Theorem readLoop_never_throws :
  (forall chunks buffer w e, fst (readLoop chunks buffer w) <> Thrown e) /\
  (forall chunks buffer w buffer' w',
      readLoop chunks buffer w = (Returned buffer', w') ->
      suspendChess (SSH_CONFIG w') = suspendChess (SSH_CONFIG w) /\
      exists evs, trace w' = (trace w ++ evs)%list) /\
  (forall notification w,
      NtfySubscriber.property "event" notification
      = Some (NtfySubscriber.JString "keepalive") ->
      handleNotification notification w = (Returned tt, w)) /\
  (forall w,
      handleNotification NtfySubscriber.JNull w
      = (Thrown (typeError "notification.event" (Some NtfySubscriber.JNull)), w)) /\
  (forall notification w e w',
      handleNotification notification w = (Thrown e, w') ->
      exists evs,
        w' = record evs w /\ Forall (fun ev => isConsole ev = true) evs).
Proof.
  split; [|split; [|split; [|split]]].
  - intros chunks buffer w e.
    destruct (steady_readLoop chunks buffer w) as (b & w' & E & _).
    rewrite E. discriminate.
  - intros chunks buffer w buffer' w' E.
    destruct (steady_readLoop chunks buffer w) as (b & w1 & E1 & Hf & Ht).
    rewrite E1 in E. injection E as _ <-. now split.
  - intros notification w H.
    unfold NtfySubscriber.handleNotification, NtfySubscriber.read, bind.
    destruct notification; try discriminate H.
    cbn [ret]. rewrite H. reflexivity.
  - intros w. reflexivity.
  - intros notification. apply failsEarly_handleNotification.
Qed.

End Subscriber.

(** ** Line buffering of the subscription stream *)

Section LineBuffer.

Lemma splitLines_nonempty (s : string) : NtfySubscriber.splitLines s <> [].
Proof.
  destruct s as [|a s]; cbn [NtfySubscriber.splitLines]; [discriminate|].
  destruct (Ascii.eqb a (ascii_of_nat 10)); [discriminate|].
  destruct (NtfySubscriber.splitLines s); discriminate.
Qed.

Lemma splitLines_app (s t : string) :
  NtfySubscriber.splitLines (s ++ t)
  = (removelast (NtfySubscriber.splitLines s)
     ++ NtfySubscriber.splitLines
          (last (NtfySubscriber.splitLines s) EmptyString ++ t))%list.
Proof.
  induction s as [|a s IH]; [reflexivity|].
  cbn [append NtfySubscriber.splitLines].
  pose proof (splitLines_nonempty s) as Hne.
  destruct (Ascii.eqb a (ascii_of_nat 10)) eqn:Ha.
  - rewrite IH.
    destruct (NtfySubscriber.splitLines s) as [|x xs]; [now elim Hne|].
    reflexivity.
  - rewrite IH.
    destruct (NtfySubscriber.splitLines s) as [|x [|y ys]]; [now elim Hne| |].
    + cbn [removelast last app NtfySubscriber.splitLines append].
      now rewrite Ha.
    + reflexivity.
Qed.

Lemma join_cons (sep x : string) (l : list string) :
  l <> [] -> Js.join sep (x :: l) = x ++ sep ++ Js.join sep l.
Proof. destruct l; [now intros H; elim H | reflexivity]. Qed.

Lemma splitLines_join (s : string) :
  Js.join NtfySubscriber.newline (NtfySubscriber.splitLines s) = s.
Proof.
  induction s as [|a s IH]; [reflexivity|].
  cbn [NtfySubscriber.splitLines].
  pose proof (splitLines_nonempty s) as Hne.
  destruct (Ascii.eqb a (ascii_of_nat 10)) eqn:Ha.
  - apply Ascii.eqb_eq in Ha. subst a.
    rewrite join_cons by exact Hne. now rewrite IH.
  - destruct (NtfySubscriber.splitLines s) as [|x [|y ys]]; [now elim Hne| |].
    + cbn in IH |- *. now rewrite IH.
    + rewrite join_cons in IH |- * by discriminate.
      cbn [append]. now rewrite IH.
Qed.

Lemma includes_newline_cons (a : ascii) (x : string) :
  Ascii.eqb a (ascii_of_nat 10) = false ->
  Js.includes x NtfySubscriber.newline = false ->
  Js.includes (String a x) NtfySubscriber.newline = false.
Proof.
  intros Ha Hx.
  change (Js.includes (String a x) NtfySubscriber.newline)
    with (String.prefix NtfySubscriber.newline (String a x)
          || Js.includes x NtfySubscriber.newline).
  rewrite Hx, orb_false_r. unfold NtfySubscriber.newline.
  cbn [String.prefix].
  match goal with
  | |- context [ascii_dec ?c a] => destruct (ascii_dec c a) as [E|_]
  end; [|reflexivity].
  subst a. discriminate Ha.
Qed.

Lemma splitLines_no_newline (s line : string) :
  In line (NtfySubscriber.splitLines s) ->
  Js.includes line NtfySubscriber.newline = false.
Proof.
  revert line. induction s as [|a s IH]; intros line H.
  - destruct H as [<-|[]]. reflexivity.
  - cbn [NtfySubscriber.splitLines] in H.
    destruct (Ascii.eqb a (ascii_of_nat 10)) eqn:Ha.
    + destruct H as [<-|H]; [reflexivity | now apply IH].
    + destruct (NtfySubscriber.splitLines s) as [|x xs].
      * destruct H as [<-|[]]. now apply includes_newline_cons.
      * destruct H as [<-|H]; [|apply IH; now right].
        apply includes_newline_cons; [exact Ha | apply IH; now left].
Qed.

(** X18: the buffering loses and invents nothing: the complete lines
    and the new buffer, joined by line feeds, are the old buffer
    followed by the chunk; and neither a line nor the buffer contains a
    line feed. *)
Theorem popLast_recomposes (buffer chunk : string) :
  let '(lines, rest) :=
    NtfySubscriber.popLast (NtfySubscriber.splitLines (buffer ++ chunk)) in
  Js.join NtfySubscriber.newline (lines ++ [rest]) = buffer ++ chunk /\
  Js.includes rest NtfySubscriber.newline = false /\
  Forall (fun line => Js.includes line NtfySubscriber.newline = false) lines.
Proof.
  unfold NtfySubscriber.popLast.
  set (L := NtfySubscriber.splitLines (buffer ++ chunk)).
  assert (HL : L <> []) by apply splitLines_nonempty.
  assert (E : (removelast L ++ [last L EmptyString])%list = L)
    by (symmetry; now apply app_removelast_last).
  split; [|split].
  - rewrite E. apply splitLines_join.
  - apply (splitLines_no_newline (buffer ++ chunk)). fold L.
    rewrite <- E at 2. apply in_or_app. right. now left.
  - apply Forall_forall. intros line H.
    apply (splitLines_no_newline (buffer ++ chunk)). fold L.
    rewrite <- E. apply in_or_app. now left.
Qed.

End LineBuffer.

Section Chunking.
Variable env : Env.
Variable toLocaleString : option NtfySubscriber.json -> string.
Variable CLIPBOARD : piece.
Variable jsonParse : string -> NtfySubscriber.json + jsError.
Variable typeError : string -> option NtfySubscriber.json -> jsError.

Abbreviation processLines' :=
  (NtfySubscriber.processLines env toLocaleString CLIPBOARD jsonParse typeError).
Abbreviation processChunk' :=
  (NtfySubscriber.processChunk env toLocaleString CLIPBOARD jsonParse typeError).
Abbreviation readLoop' :=
  (NtfySubscriber.readLoop env toLocaleString CLIPBOARD jsonParse typeError).

Lemma last_app_nonempty {T} (l1 l2 : list T) (d : T) :
  l2 <> [] -> last (l1 ++ l2) d = last l2 d.
Proof.
  intros H. induction l1 as [|x l1 IH]; [reflexivity|].
  cbn [app last]. destruct (l1 ++ l2)%list eqn:E; [|exact IH].
  apply app_eq_nil in E. now elim H.
Qed.

Lemma bind_assoc_at {A B C} (m : M A) (f : A -> M B) (g : B -> M C)
    (w : world) :
  bind (bind m f) g w = bind m (fun a => bind (f a) g) w.
Proof. unfold bind. now destruct (m w) as [[a|e|] w1]. Qed.

Lemma bind_ext_at {A B} (m : M A) (f g : A -> M B) (w : world) :
  (forall a w', f a w' = g a w') -> bind m f w = bind m g w.
Proof. intros H. unfold bind. destruct (m w) as [[a|e|] w1]; auto. Qed.

Lemma processLines_app {A} (l1 l2 : list string) (k : unit -> M A) (w : world) :
  bind (processLines' (l1 ++ l2)) k w
  = bind (processLines' l1) (fun _ => bind (processLines' l2) k) w.
Proof.
  revert w. induction l1 as [|line l1 IH]; intros w; [reflexivity|].
  cbn [app NtfySubscriber.processLines].
  rewrite !bind_assoc_at. apply bind_ext_at. intros _ w1. apply IH.
Qed.

Lemma processChunk_merge {A} (buffer c1 c2 : string) (k : string -> M A)
    (w : world) :
  bind (processChunk' buffer c1) (fun b => bind (processChunk' b c2) k) w
  = bind (processChunk' buffer (c1 ++ c2)) k w.
Proof.
  unfold NtfySubscriber.processChunk, NtfySubscriber.popLast.
  rewrite <- append_assoc, (splitLines_app (buffer ++ c1) c2).
  set (L1 := NtfySubscriber.splitLines (buffer ++ c1)).
  set (L2 := NtfySubscriber.splitLines (last L1 EmptyString ++ c2)).
  assert (H2 : L2 <> []) by apply splitLines_nonempty.
  rewrite removelast_app by exact H2.
  replace (last (removelast L1 ++ L2) EmptyString) with (last L2 EmptyString)
    by (symmetry; now apply last_app_nonempty).
  rewrite !bind_assoc_at, processLines_app.
  apply bind_ext_at. intros _ w1.
  exact (bind_assoc_at (processLines' (removelast L2))
           (fun _ => ret (last L2 EmptyString)) k w1).
Qed.

(** X17: how the stream is cut into chunks does not matter: reading
    two chunks one after the other does, prints and leaves in the
    buffer exactly what reading them as one chunk would. *)
Theorem readLoop_chunking (c1 c2 : string) (rest : list string)
    (buffer : string) (w : world) :
  readLoop' (c1 :: c2 :: rest) buffer w
  = readLoop' ((c1 ++ c2) :: rest) buffer w.
Proof.
  cbn [NtfySubscriber.readLoop].
  apply (processChunk_merge buffer c1 c2
           (NtfySubscriber.readLoop env toLocaleString CLIPBOARD jsonParse
              typeError rest)).
Qed.

End Chunking.

Lemma readLoop_never_throws_witness :
  NtfySubscriber.handleNotification (Sample.sampleEnv 0 0 [])
    (fun _ => "today") (Text "*") MoreSample.plainTypeError
    MoreSample.keepalive Sample.sampleWorld
  = (Returned tt, Sample.sampleWorld) /\
  exists evs,
    snd (NtfySubscriber.handleNotification (Sample.sampleEnv 0 0 [])
           (fun _ => "today") (Text "*") MoreSample.plainTypeError
           MoreSample.mistagged Sample.sampleWorld)
    = record evs Sample.sampleWorld /\
    Forall (fun ev => isConsole ev = true) evs.
Proof.
  split.
  - exact (proj1 (proj2 (proj2 (readLoop_never_throws (Sample.sampleEnv 0 0 [])
                                  (fun _ => "today") (Text "*")
                                  (fun _ => inr (Error "Unexpected token"))
                                  MoreSample.plainTypeError)))
             MoreSample.keepalive Sample.sampleWorld eq_refl).
  - exact (proj2 (proj2 (proj2 (proj2 (readLoop_never_throws
                                         (Sample.sampleEnv 0 0 [])
                                         (fun _ => "today") (Text "*")
                                         (fun _ => inr (Error "Unexpected token"))
                                         MoreSample.plainTypeError))))
             MoreSample.mistagged Sample.sampleWorld
             (Error "notification.tags?.join is not a function") _ eq_refl).
Defined.

Example mistyped_tags_are_logged :
  NtfySubscriber.processLine (Sample.sampleEnv 0 0 [])
    (fun _ => "today") (Text "*") (fun _ => inl MoreSample.mistagged)
    MoreSample.plainTypeError "{...}" Sample.sampleWorld
  = (Returned tt,
     record
       [ConsoleLog [Text NtfySubscriber.newline; Glyph ENVELOPE;
                    Text " Received notification:"];
        ConsoleLog [Text "  ID: m1"];
        ConsoleLog [Text "  Time: today"];
        ConsoleLog [Text "  Title: N/A"];
        ConsoleLog [Text "  Message: block"];
        ConsoleLog [Text "  Priority: default"];
        ConsoleError [Glyph ERROR; Text " Error parsing notification:"; Text " ";
                      Text "notification.tags?.join is not a function"]]
       Sample.sampleWorld).
Proof. reflexivity. Qed.
